(** * core-js-101, 05-objects-tasks.js: Rectangle, fromJSON and the CSS selector builder

    A shallow embedding of [src/05-objects-tasks.js].

    - JavaScript strings are [string]; the values handed to the selector
      builder are strings (the spec's data model), so the truthiness of a
      stored fragment is "is not the empty string" and [undefined] (an index
      outside an array) is [None].
    - A method of [class SelectoCss] is a computation over the receiver
      [this] that either completes normally or throws: a state and
      exception monad. [throw] leaves the receiver as it is at that point.
    - Objects that are shared by reference live in a heap ([gmap] from
      locations to objects); [cssSelectorBuilder] works on that heap. *)

From Stdlib Require Import ZArith String Ascii List Lia.
From stdpp Require Import base option list strings gmap.

Set Default Proof Using "Type".

(** ** JavaScript completions and exceptions *)

Inductive exn : Type :=
  | Error (message : string)
  | TypeError (message : string)
  | SyntaxError (message : string).

Inductive completion (A : Type) : Type :=
  | Normal (a : A)
  | Throw (e : exn).
Arguments Normal {A} a.
Arguments Throw {A} e.

(** A computation over a mutable state [S] that may throw. *)
Definition stateExn (S A : Type) : Type := S -> completion A * S.

#[global] Instance stateExn_ret {S} : MRet (stateExn S) :=
  fun A a s => (Normal a, s).
#[global] Instance stateExn_bind {S} : MBind (stateExn S) :=
  fun A B k m s =>
    match m s with
    | (Normal a, s') => k a s'
    | (Throw e, s') => (Throw e, s')
    end.
#[global] Instance stateExn_throw {S} : MThrow exn (stateExn S) :=
  fun A e s => (Throw e, s).

Definition get {S} : stateExn S S := fun s => (Normal s, s).
Definition modify {S} (f : S -> S) : stateExn S unit := fun s => (Normal tt, f s).
(** [if (c) throw e;] *)
Definition throw_if {S} (c : bool) (e : exn) : stateExn S unit :=
  if c then mthrow e else mret tt.

(** ** Truthiness of the values the builder stores *)

(** [if (s)] for a string [s]: every string but [''] is truthy. *)
Definition truthy (s : string) : bool :=
  match s with
  | EmptyString => false
  | String _ _ => true
  end.

(** [if (a[0])] for an array of strings: [undefined] is falsy. *)
Definition truthy_at (o : option string) : bool :=
  match o with
  | Some s => truthy s
  | None => false
  end.

Definition dquote : string := String (ascii_of_nat 34) EmptyString.

(** ** class SelectoCss *)

Module SelectoCss.

Record t : Type := mk {
  elementTag : string;
  elementId : string;
  elementClasses : list string;
  elementAttr : list string;
  elementPseudoClasses : list string;
  elementPseudoElement : string;
  mean : string
}.

Abbreviation method := (stateExn t).

(** [constructor(value = '')] *)
Definition constructor (value : string) : t :=
  {| elementTag := "";
     elementId := "";
     elementClasses := [];
     elementAttr := [];
     elementPseudoClasses := [];
     elementPseudoElement := "";
     mean := value |}.

Definition set_elementTag (v : string) (this : t) : t :=
  mk v (elementId this) (elementClasses this) (elementAttr this)
     (elementPseudoClasses this) (elementPseudoElement this) (mean this).
Definition set_elementId (v : string) (this : t) : t :=
  mk (elementTag this) v (elementClasses this) (elementAttr this)
     (elementPseudoClasses this) (elementPseudoElement this) (mean this).
Definition set_elementPseudoElement (v : string) (this : t) : t :=
  mk (elementTag this) (elementId this) (elementClasses this) (elementAttr this)
     (elementPseudoClasses this) v (mean this).
(** [this.elementClasses.push(v)] and its two siblings. *)
Definition push_elementClasses (v : string) (this : t) : t :=
  mk (elementTag this) (elementId this) (elementClasses this ++ [v]) (elementAttr this)
     (elementPseudoClasses this) (elementPseudoElement this) (mean this).
Definition push_elementAttr (v : string) (this : t) : t :=
  mk (elementTag this) (elementId this) (elementClasses this) (elementAttr this ++ [v])
     (elementPseudoClasses this) (elementPseudoElement this) (mean this).
Definition push_elementPseudoClasses (v : string) (this : t) : t :=
  mk (elementTag this) (elementId this) (elementClasses this) (elementAttr this)
     (elementPseudoClasses this ++ [v]) (elementPseudoElement this) (mean this).

Definition msg_once : string :=
  "Element, id and pseudo-element should not occur more then one time inside the selector".
Definition msg_order : string :=
  "Selector parts should be arranged in the following order: element, id, class, attribute, pseudo-class, pseudo-element".

Definition element (value : string) : method unit :=
  this ← get;
  throw_if (truthy (elementTag this)) (Error msg_once);;
  throw_if (truthy (elementId this) || truthy_at (elementClasses this !! 0)
            || truthy_at (elementAttr this !! 0)
            || truthy_at (elementPseudoClasses this !! 0)
            || truthy (elementPseudoElement this)) (Error msg_order);;
  modify (set_elementTag value).

Definition id (value : string) : method unit :=
  this ← get;
  throw_if (truthy (elementId this)) (Error msg_once);;
  throw_if (truthy_at (elementClasses this !! 0) || truthy_at (elementAttr this !! 0)
            || truthy_at (elementPseudoClasses this !! 0)
            || truthy (elementPseudoElement this)) (Error msg_order);;
  modify (set_elementId value).

Definition class (value : string) : method unit :=
  this ← get;
  throw_if (truthy_at (elementAttr this !! 0)
            || truthy_at (elementPseudoClasses this !! 0)
            || truthy (elementPseudoElement this)) (Error msg_order);;
  modify (push_elementClasses value).

Definition attr (value : string) : method unit :=
  this ← get;
  throw_if (truthy_at (elementPseudoClasses this !! 0)
            || truthy (elementPseudoElement this)) (Error msg_order);;
  modify (push_elementAttr value).

Definition pseudoClass (value : string) : method unit :=
  this ← get;
  throw_if (truthy (elementPseudoElement this)) (Error msg_order);;
  modify (push_elementPseudoClasses value).

Definition pseudoElement (value : string) : method unit :=
  this ← get;
  throw_if (truthy (elementPseudoElement this)) (Error msg_once);;
  modify (set_elementPseudoElement value).

(** [stringify()]: [res] grows by [+=]; each [forEach] is a left fold. *)
Definition stringify (this : t) : string :=
  let res := "" in
  let res := if truthy (elementTag this) then res +:+ elementTag this else res in
  let res := if truthy (elementId this) then res +:+ "#" +:+ elementId this else res in
  let res :=
    if truthy_at (elementClasses this !! 0)
    then fold_left (fun res cl => res +:+ "." +:+ cl) (elementClasses this) res
    else res in
  let res :=
    if truthy_at (elementAttr this !! 0)
    then fold_left (fun res atr => res +:+ "[" +:+ atr +:+ "]") (elementAttr this) res
    else res in
  let res :=
    if truthy_at (elementPseudoClasses this !! 0)
    then fold_left (fun res psev => res +:+ ":" +:+ psev) (elementPseudoClasses this) res
    else res in
  let res :=
    if truthy (elementPseudoElement this) then res +:+ "::" +:+ elementPseudoElement this
    else res in
  res.

End SelectoCss.

(** ** The six builder operations, by fragment kind *)

Inductive kind : Type := Tag | Id | Class | Attr | PseudoClass | PseudoElement.

#[global] Instance kind_eq_dec : EqDecision kind.
Proof. solve_decision. Defined.

(** The fixed order of the spec: tag=0, id=1, class=2, attr=3, pseudoClass=4,
    pseudoElement=5. *)
Definition rank (k : kind) : nat :=
  match k with
  | Tag => 0 | Id => 1 | Class => 2 | Attr => 3 | PseudoClass => 4 | PseudoElement => 5
  end.

Definition singleton (k : kind) : bool :=
  match k with
  | Tag | Id | PseudoElement => true
  | Class | Attr | PseudoClass => false
  end.

Abbreviation fragment := (kind * string)%type.

(** The method of [SelectoCss] that appends a fragment of kind [k]. *)
Definition call (k : kind) (value : string) : SelectoCss.method unit :=
  match k with
  | Tag => SelectoCss.element value
  | Id => SelectoCss.id value
  | Class => SelectoCss.class value
  | Attr => SelectoCss.attr value
  | PseudoClass => SelectoCss.pseudoClass value
  | PseudoElement => SelectoCss.pseudoElement value
  end.

(** A chain [b.k1(v1).k2(v2)...] on one receiver: each method returns [this];
    a throw ends the chain. *)
Fixpoint chain (fs : list fragment) : SelectoCss.method unit :=
  match fs with
  | [] => mret tt
  | (k, v) :: fs => call k v;; chain fs
  end.

(** What a builder stores for a kind: the field of a singleton kind, the array
    of a repeatable kind. *)
Definition field (k : kind) (this : SelectoCss.t) : string :=
  match k with
  | Tag => SelectoCss.elementTag this
  | Id => SelectoCss.elementId this
  | PseudoElement => SelectoCss.elementPseudoElement this
  | _ => ""
  end.

Definition items (k : kind) (this : SelectoCss.t) : list string :=
  match k with
  | Class => SelectoCss.elementClasses this
  | Attr => SelectoCss.elementAttr this
  | PseudoClass => SelectoCss.elementPseudoClasses this
  | _ => []
  end.

(** The state with the array of a repeatable kind emptied. *)
Definition without_items (k : kind) (this : SelectoCss.t) : SelectoCss.t :=
  match k with
  | Class =>
      SelectoCss.mk (SelectoCss.elementTag this) (SelectoCss.elementId this) []
        (SelectoCss.elementAttr this) (SelectoCss.elementPseudoClasses this)
        (SelectoCss.elementPseudoElement this) (SelectoCss.mean this)
  | Attr =>
      SelectoCss.mk (SelectoCss.elementTag this) (SelectoCss.elementId this)
        (SelectoCss.elementClasses this) [] (SelectoCss.elementPseudoClasses this)
        (SelectoCss.elementPseudoElement this) (SelectoCss.mean this)
  | PseudoClass =>
      SelectoCss.mk (SelectoCss.elementTag this) (SelectoCss.elementId this)
        (SelectoCss.elementClasses this) (SelectoCss.elementAttr this) []
        (SelectoCss.elementPseudoElement this) (SelectoCss.mean this)
  | _ => this
  end.

(** ** The checks and updates of the six methods, kind by kind

    Read off the methods; [call_unfold] and [stringify_parts] below prove that
    they describe them. *)

(** The duplicate check of [element], [id] and [pseudoElement]. *)
Definition already_set (k : kind) (this : SelectoCss.t) : bool :=
  singleton k && truthy (field k this).

(** The ordering check: is a fragment of a later kind stored (and truthy)? *)
Definition later_present (k : kind) (this : SelectoCss.t) : bool :=
  match k with
  | Tag =>
      truthy (SelectoCss.elementId this)
      || truthy_at (SelectoCss.elementClasses this !! 0)
      || truthy_at (SelectoCss.elementAttr this !! 0)
      || truthy_at (SelectoCss.elementPseudoClasses this !! 0)
      || truthy (SelectoCss.elementPseudoElement this)
  | Id =>
      truthy_at (SelectoCss.elementClasses this !! 0)
      || truthy_at (SelectoCss.elementAttr this !! 0)
      || truthy_at (SelectoCss.elementPseudoClasses this !! 0)
      || truthy (SelectoCss.elementPseudoElement this)
  | Class =>
      truthy_at (SelectoCss.elementAttr this !! 0)
      || truthy_at (SelectoCss.elementPseudoClasses this !! 0)
      || truthy (SelectoCss.elementPseudoElement this)
  | Attr =>
      truthy_at (SelectoCss.elementPseudoClasses this !! 0)
      || truthy (SelectoCss.elementPseudoElement this)
  | PseudoClass => truthy (SelectoCss.elementPseudoElement this)
  | PseudoElement => false
  end.

(** The assignment or [push] that a method ends with. *)
Definition store (k : kind) (v : string) (this : SelectoCss.t) : SelectoCss.t :=
  match k with
  | Tag => SelectoCss.set_elementTag v this
  | Id => SelectoCss.set_elementId v this
  | Class => SelectoCss.push_elementClasses v this
  | Attr => SelectoCss.push_elementAttr v this
  | PseudoClass => SelectoCss.push_elementPseudoClasses v this
  | PseudoElement => SelectoCss.set_elementPseudoElement v this
  end.

Definition concat_strings (l : list string) : string :=
  foldr String.append "" l.

(** What [stringify] adds to [res] for a kind. *)
Definition part (k : kind) (this : SelectoCss.t) : string :=
  match k with
  | Tag =>
      if truthy (SelectoCss.elementTag this) then SelectoCss.elementTag this else ""
  | Id =>
      if truthy (SelectoCss.elementId this) then "#" +:+ SelectoCss.elementId this else ""
  | Class =>
      if truthy_at (SelectoCss.elementClasses this !! 0)
      then concat_strings ((fun cl => "." +:+ cl) <$> SelectoCss.elementClasses this)
      else ""
  | Attr =>
      if truthy_at (SelectoCss.elementAttr this !! 0)
      then concat_strings ((fun atr => "[" +:+ atr +:+ "]") <$> SelectoCss.elementAttr this)
      else ""
  | PseudoClass =>
      if truthy_at (SelectoCss.elementPseudoClasses this !! 0)
      then concat_strings
             ((fun psev => ":" +:+ psev) <$> SelectoCss.elementPseudoClasses this)
      else ""
  | PseudoElement =>
      if truthy (SelectoCss.elementPseudoElement this)
      then "::" +:+ SelectoCss.elementPseudoElement this else ""
  end.

(** ** The rendering and the error kind, in the spec's words *)

(** One fragment with its prefix: tag verbatim, [#id], [.class], [[attr]],
    [:pseudoClass], [::pseudoElement]. *)
Definition spec_fragment (f : fragment) : string :=
  match f with
  | (Tag, v) => v
  | (Id, v) => "#" +:+ v
  | (Class, v) => "." +:+ v
  | (Attr, v) => "[" +:+ v +:+ "]"
  | (PseudoClass, v) => ":" +:+ v
  | (PseudoElement, v) => "::" +:+ v
  end.

Definition of_kind (k : kind) (fs : list fragment) : list fragment :=
  filter (fun f => f.1 = k) fs.

(** The fragments of each kind, kind after kind in the fixed order, each kind in
    insertion order, with nothing between them. *)
Definition spec_render (fs : list fragment) : string :=
  concat_strings
    (spec_fragment <$>
       (of_kind Tag fs ++ of_kind Id fs ++ of_kind Class fs ++ of_kind Attr fs
        ++ of_kind PseudoClass fs ++ of_kind PseudoElement fs)).

(** The values under which the code renders every fragment: no id and no
    pseudo-element is the empty string, and the first class, the first
    attribute and the first pseudo-class are not the empty string. *)
Definition all_truthy (k : kind) (fs : list fragment) : bool :=
  forallb (fun f => truthy f.2) (of_kind k fs).

Definition first_truthy (k : kind) (fs : list fragment) : bool :=
  match of_kind k fs with
  | [] => true
  | f :: _ => truthy f.2
  end.

Definition rendered_in_full (fs : list fragment) : bool :=
  all_truthy Id fs && all_truthy PseudoElement fs
  && first_truthy Class fs && first_truthy Attr fs && first_truthy PseudoClass fs.

(** The array of a kind is empty or starts with a truthy value (so for a
    singleton kind, which has no array, it holds). *)
Definition head_truthy (k : kind) (this : SelectoCss.t) : bool :=
  match items k this with
  | [] => true
  | v :: _ => truthy v
  end.

(** A fragment of kind [k] with value [v] is the last one stored in [this1],
    which came from [this]. *)
Definition stored_last (k : kind) (v : string) (this this1 : SelectoCss.t) : Prop :=
  if singleton k then field k this1 = v else items k this1 = items k this ++ [v].

(** The spec's single error kind: an [Error] carrying one of the two messages. *)
Definition InvalidSelectorStructure (e : exn) : Prop :=
  e = Error SelectoCss.msg_once \/ e = Error SelectoCss.msg_order.

(** Applied in non-decreasing kind order. *)
Fixpoint ordered (fs : list fragment) : bool :=
  match fs with
  | f :: (g :: _) as rest => (rank f.1 <=? rank g.1) && ordered rest
  | _ => true
  end.

(** Applied in non-decreasing kind order with each singleton kind at most
    once: a singleton fragment has a rank above that of the fragment before
    it. *)
Fixpoint ordered_once (fs : list fragment) : bool :=
  match fs with
  | f :: (g :: _) as rest =>
      (if singleton g.1 then rank f.1 <? rank g.1 else rank f.1 <=? rank g.1)
      && ordered_once rest
  | _ => true
  end.

(** No truthy fragment of a kind of rank [n] or more is stored. *)
Definition absent_from (n : nat) (this : SelectoCss.t) : Prop :=
  forall k, n <= rank k ->
    truthy (field k this) = false /\ truthy_at (items k this !! 0) = false.

(** The least rank that must be free for a call of kind [k] to return. *)
Definition free_rank (k : kind) : nat :=
  if singleton k then rank k else S (rank k).

(** ** Objects by reference: the heap *)

(** The object literal that [cssSelectorBuilder.combine] returns. *)
Module Combined.

Record t : Type := mk {
  firstSel : string;
  secondtSel : string;
  combine : string
}.

Definition stringify (this : t) : string :=
  firstSel this +:+ " " +:+ combine this +:+ " " +:+ secondtSel this.

End Combined.

Inductive object : Type :=
  | OSelectoCss (o : SelectoCss.t)
  | OCombined (o : Combined.t).

Abbreviation loc := positive.
Abbreviation heap := (gmap loc object).
Abbreviation prog := (stateExn heap).

(** [new ...] and object literals: a location that is not in use. *)
Definition alloc (o : object) : prog loc :=
  fun h => let l := fresh (dom h) in (Normal l, <[l := o]> h).

(** [l.k(value)] for one of the six builder methods [k]: the method runs on the
    object that [l] refers to, the object is updated in place, and the call
    returns [this], that is [l]. A combined selector has none of these methods
    (and [undefined] has no property at all): a [TypeError]. *)
Definition invoke (l : loc) (k : kind) (value : string) : prog loc :=
  fun h =>
    match h !! l with
    | Some (OSelectoCss this) =>
        match call k value this with
        | (Normal _, this') => (Normal l, <[l := OSelectoCss this']> h)
        | (Throw e, this') => (Throw e, <[l := OSelectoCss this']> h)
        end
    | Some (OCombined _) => (Throw (TypeError "is not a function"), h)
    | None => (Throw (TypeError "Cannot read properties of undefined"), h)
    end.

(** [l.stringify()], dispatched on the object that [l] refers to. *)
Definition invoke_stringify (l : loc) : prog string :=
  fun h =>
    match h !! l with
    | Some (OSelectoCss this) => (Normal (SelectoCss.stringify this), h)
    | Some (OCombined this) => (Normal (Combined.stringify this), h)
    | None => (Throw (TypeError "Cannot read properties of undefined"), h)
    end.

Module cssSelectorBuilder.

Definition element (value : string) : prog loc :=
  l ← alloc (OSelectoCss (SelectoCss.constructor "")); invoke l Tag value.

Definition id (value : string) : prog loc :=
  l ← alloc (OSelectoCss (SelectoCss.constructor "")); invoke l Id value.

Definition class (value : string) : prog loc :=
  l ← alloc (OSelectoCss (SelectoCss.constructor "")); invoke l Class value.

Definition attr (value : string) : prog loc :=
  l ← alloc (OSelectoCss (SelectoCss.constructor "")); invoke l Attr value.

Definition pseudoClass (value : string) : prog loc :=
  l ← alloc (OSelectoCss (SelectoCss.constructor "")); invoke l PseudoClass value.

Definition pseudoElement (value : string) : prog loc :=
  l ← alloc (OSelectoCss (SelectoCss.constructor "")); invoke l PseudoElement value.

Definition combine (selector1 : loc) (combine : string) (selector2 : loc) : prog loc :=
  firstSel ← invoke_stringify selector1;
  secondtSel ← invoke_stringify selector2;
  alloc (OCombined (Combined.mk firstSel secondtSel combine)).

(** The facade entry point of a kind. *)
Definition create (k : kind) (value : string) : prog loc :=
  match k with
  | Tag => element value
  | Id => id value
  | Class => class value
  | Attr => attr value
  | PseudoClass => pseudoClass value
  | PseudoElement => pseudoElement value
  end.

End cssSelectorBuilder.

(** [l.k1(v1).k2(v2)...]: each call is made on the reference that the call
    before it returned. *)
Fixpoint invoke_all (l : loc) (fs : list fragment) : prog loc :=
  match fs with
  | [] => mret l
  | (k, v) :: fs => l' ← invoke l k v; invoke_all l' fs
  end.

(** [cssSelectorBuilder.k(v).k1(v1)...]: a builder made through the public
    operations, from its first fragment on. *)
Definition build (f : fragment) (fs : list fragment) : prog loc :=
  l ← cssSelectorBuilder.create f.1 f.2; invoke_all l fs.

(** What a client can do with the builder: call a method on a selector it
    holds, create a selector through the facade, combine two, render one. *)
Inductive action : Type :=
  | Invoke (l : loc) (k : kind) (value : string)
  | Create (k : kind) (value : string)
  | Combine (selector1 : loc) (combine : string) (selector2 : loc)
  | Stringify (l : loc).

(** The heap after one action, whether it returned or threw. *)
Definition perform (a : action) (h : heap) : heap :=
  match a with
  | Invoke l k value => (invoke l k value h).2
  | Create k value => (cssSelectorBuilder.create k value h).2
  | Combine selector1 combine selector2 =>
      (cssSelectorBuilder.combine selector1 combine selector2 h).2
  | Stringify l => (invoke_stringify l h).2
  end.

(** A client that goes on after each action (a throw is caught). *)
Definition perform_all (acts : list action) (h : heap) : heap :=
  fold_left (fun h a => perform a h) acts h.

(** A heap with the selectors [div] and [span]. *)
Definition two_selectors : heap :=
  <[2%positive := OSelectoCss (SelectoCss.set_elementTag "span" (SelectoCss.constructor ""))]>
    (<[1%positive := OSelectoCss (SelectoCss.set_elementTag "div" (SelectoCss.constructor ""))]>
       ∅).

(** The nested example of the source's comment, arguments evaluated from left
    to right. *)
Definition nested_example : prog string :=
  a ← (l ← cssSelectorBuilder.element "div";
       l ← invoke l Id "main";
       l ← invoke l Class "container";
       invoke l Class "draggable");
  b ← (t ← (l ← cssSelectorBuilder.element "table"; invoke l Id "data");
       c ← (tr ← (l ← cssSelectorBuilder.element "tr";
                  invoke l PseudoClass "nth-of-type(even)");
            td ← (l ← cssSelectorBuilder.element "td";
                  invoke l PseudoClass "nth-of-type(even)");
            cssSelectorBuilder.combine tr " " td);
       cssSelectorBuilder.combine t "~" c);
  r ← cssSelectorBuilder.combine a "+" b;
  invoke_stringify r.

(** A client that changes an operand after the combination: the renderings of
    the combined selector before, of the operand after, and of the combined
    selector after. *)
Definition change_after_combine : prog (string * string * string) :=
  a ← cssSelectorBuilder.element "div";
  b ← cssSelectorBuilder.element "span";
  c ← cssSelectorBuilder.combine a "+" b;
  before ← invoke_stringify c;
  _ ← invoke a Id "main";
  a_after ← invoke_stringify a;
  c_after ← invoke_stringify c;
  mret (before, a_after, c_after).

(** ** Values, [JSON.parse] and [Object.values] of the host *)

(** The values that [JSON.parse] produces, and [undefined]. A number is an
    integer that a double holds exactly; an object is its properties in
    creation order. *)
#[local] Unset Elimination Schemes.
Inductive value : Type :=
  | Undefined
  | Null
  | Bool (b : bool)
  | Number (z : Z)
  | Str (s : string)
  | Array (elements : list value)
  | Object (props : list (string * value)).
#[local] Set Elimination Schemes.

Definition safe_integer (z : Z) : bool :=
  ((- 2 ^ 53 <=? z) && (z <=? 2 ^ 53))%Z.

(** [a * b] on numbers, where the product is exact; [None] is outside the
    model (coercions, rounding). *)
Definition js_mul (a b : value) : option value :=
  match a, b with
  | Number x, Number y =>
      if safe_integer (x * y) then Some (Number (x * y)) else None
  | _, _ => None
  end.

Module JSON.

(** The result of reading a prefix of the text: a value and the rest of the
    text, a syntax error, or a text outside the modelled part of the grammar
    (escapes, fractions and exponents, other than ASCII). *)
Inductive parsed (A : Type) : Type :=
  | Parsed (a : A) (rest : list ascii)
  | Invalid
  | Unsupported.
Arguments Parsed {A} a rest.
Arguments Invalid {A}.
Arguments Unsupported {A}.

Definition dq : ascii := ascii_of_nat 34.
Definition backslash : ascii := ascii_of_nat 92.

Definition is_ws (c : ascii) : bool :=
  let n := nat_of_ascii c in (n =? 32) || (n =? 9) || (n =? 10) || (n =? 13).

Definition digit (c : ascii) : option Z :=
  let n := nat_of_ascii c in
  if (48 <=? n) && (n <=? 57) then Some (Z.of_nat (n - 48)) else None.

Fixpoint skip_ws (cs : list ascii) : list ascii :=
  match cs with
  | c :: cs' => if is_ws c then skip_ws cs' else cs
  | [] => []
  end.

(** The characters of a string, after its opening quote. *)
Fixpoint parse_chars (cs : list ascii) (acc : string) : parsed string :=
  match cs with
  | [] => Invalid
  | c :: cs' =>
      if Ascii.eqb c dq then Parsed (String.rev acc) cs'
      else if Ascii.eqb c backslash then Unsupported
      else if nat_of_ascii c <? 32 then Invalid
      else if 127 <? nat_of_ascii c then Unsupported
      else parse_chars cs' (String c acc)
  end.

Fixpoint parse_digits (cs : list ascii) (acc : Z) : Z * list ascii :=
  match cs with
  | c :: cs' =>
      match digit c with
      | Some d => parse_digits cs' (10 * acc + d)%Z
      | None => (acc, cs)
      end
  | [] => (acc, [])
  end.

Definition starts_fraction_or_exponent (cs : list ascii) : bool :=
  match cs with
  | c :: _ => Ascii.eqb c "." || Ascii.eqb c "e" || Ascii.eqb c "E"
  | [] => false
  end.

(** [int]: a zero, or a digit from 1 to 9 and more digits. *)
Definition parse_int (negative : bool) (cs : list ascii) : parsed value :=
  match cs with
  | c :: cs' =>
      match digit c with
      | Some d =>
          let (n, rest) := if (d =? 0)%Z then (0%Z, cs') else parse_digits cs' d in
          if starts_fraction_or_exponent rest then Unsupported
          else if negative && (n =? 0)%Z then Unsupported
          else if safe_integer n then Parsed (Number (if negative then - n else n)) rest
          else Unsupported
      | None => Invalid
      end
  | [] => Invalid
  end.

Fixpoint parse_literal (word : list ascii) (v : value) (cs : list ascii) : parsed value :=
  match word with
  | [] => Parsed v cs
  | w :: word' =>
      match cs with
      | c :: cs' => if Ascii.eqb c w then parse_literal word' v cs' else Invalid
      | [] => Invalid
      end
  end.

(** A property is created at the end of the object; a key that is there
    already keeps its place and takes the new value. *)
Fixpoint define_property (key : string) (v : value) (props : list (string * value))
  : list (string * value) :=
  match props with
  | [] => [(key, v)]
  | (k, w) :: props' =>
      if String.eqb k key then (k, v) :: props'
      else (k, w) :: define_property key v props'
  end.

Fixpoint parse_value (fuel : nat) (cs : list ascii) : parsed value :=
  match fuel with
  | 0 => Unsupported
  | S fuel =>
      match skip_ws cs with
      | [] => Invalid
      | c :: cs1 =>
          if Ascii.eqb c "{" then
            match skip_ws cs1 with
            | c2 :: cs2 =>
                if Ascii.eqb c2 "}" then Parsed (Object []) cs2
                else parse_members fuel (c2 :: cs2) []
            | [] => Invalid
            end
          else if Ascii.eqb c "[" then
            match skip_ws cs1 with
            | c2 :: cs2 =>
                if Ascii.eqb c2 "]" then Parsed (Array []) cs2
                else parse_elements fuel (c2 :: cs2) []
            | [] => Invalid
            end
          else if Ascii.eqb c dq then
            match parse_chars cs1 "" with
            | Parsed s rest => Parsed (Str s) rest
            | Invalid => Invalid
            | Unsupported => Unsupported
            end
          else if Ascii.eqb c "t" then parse_literal ["r"; "u"; "e"]%char (Bool true) cs1
          else if Ascii.eqb c "f" then parse_literal ["a"; "l"; "s"; "e"]%char (Bool false) cs1
          else if Ascii.eqb c "n" then parse_literal ["u"; "l"; "l"]%char Null cs1
          else if Ascii.eqb c "-" then parse_int true cs1
          else parse_int false (c :: cs1)
      end
  end
with parse_members (fuel : nat) (cs : list ascii) (acc : list (string * value))
  : parsed value :=
  match fuel with
  | 0 => Unsupported
  | S fuel =>
      match skip_ws cs with
      | [] => Invalid
      | c :: cs1 =>
          if Ascii.eqb c dq then
            match parse_chars cs1 "" with
            | Parsed key cs2 =>
                match skip_ws cs2 with
                | c3 :: cs3 =>
                    if Ascii.eqb c3 ":" then
                      match parse_value fuel cs3 with
                      | Parsed v cs4 =>
                          let acc := define_property key v acc in
                          match skip_ws cs4 with
                          | c5 :: cs5 =>
                              if Ascii.eqb c5 "," then parse_members fuel cs5 acc
                              else if Ascii.eqb c5 "}" then Parsed (Object acc) cs5
                              else Invalid
                          | [] => Invalid
                          end
                      | Invalid => Invalid
                      | Unsupported => Unsupported
                      end
                    else Invalid
                | [] => Invalid
                end
            | Invalid => Invalid
            | Unsupported => Unsupported
            end
          else Invalid
      end
  end
with parse_elements (fuel : nat) (cs : list ascii) (acc : list value) : parsed value :=
  match fuel with
  | 0 => Unsupported
  | S fuel =>
      match parse_value fuel cs with
      | Parsed v cs1 =>
          match skip_ws cs1 with
          | c2 :: cs2 =>
              if Ascii.eqb c2 "," then parse_elements fuel cs2 (acc ++ [v])
              else if Ascii.eqb c2 "]" then Parsed (Array (acc ++ [v])) cs2
              else Invalid
          | [] => Invalid
          end
      | Invalid => Invalid
      | Unsupported => Unsupported
      end
  end.

(** [JSON.parse(text)]: the value, a [SyntaxError], or [None] for a text
    outside the modelled part of the grammar. *)
Definition parse (text : string) : option (completion value) :=
  let cs := list_ascii_of_string text in
  match parse_value (S (length cs)) cs with
  | Parsed v rest =>
      match skip_ws rest with
      | [] => Some (Normal v)
      | _ :: _ => Some (Throw (SyntaxError "Unexpected non-whitespace character after JSON"))
      end
  | Invalid => Some (Throw (SyntaxError "Unexpected token in JSON"))
  | Unsupported => None
  end.

End JSON.

(** The key of an array index: the canonical decimal text of an integer below
    [2^32 - 1]. *)
Definition array_index (key : string) : option Z :=
  match list_ascii_of_string key with
  | [] => None
  | c :: cs =>
      match JSON.digit c with
      | Some d =>
          if (d =? 0)%Z then (if decide (cs = []) then Some 0%Z else None)
          else
            match JSON.parse_digits cs d with
            | (n, []) => if (n <? 2 ^ 32 - 1)%Z then Some n else None
            | (_, _ :: _) => None
            end
      | None => None
      end
  end.

Fixpoint insert_by_index (p : Z * value) (l : list (Z * value)) : list (Z * value) :=
  match l with
  | [] => [p]
  | q :: l' => if (p.1 <=? q.1)%Z then p :: l else q :: insert_by_index p l'
  end.

(** The index keys of an object with their values, in ascending order. *)
Fixpoint index_props (props : list (string * value)) : list (Z * value) :=
  match props with
  | [] => []
  | (k, v) :: props' =>
      match array_index k with
      | Some n => insert_by_index (n, v) (index_props props')
      | None => index_props props'
      end
  end.

Definition named_props (props : list (string * value)) : list (string * value) :=
  filter (fun p => array_index p.1 = None) props.

(** [Object.values(obj)]: the values of the own enumerable properties, index
    keys first in ascending order, then the other keys in creation order. *)
Definition Object_values (obj : value) : completion (list value) :=
  match obj with
  | Undefined | Null => Throw (TypeError "Cannot convert undefined or null to object")
  | Bool _ | Number _ => Normal []
  | Str s => Normal ((fun c => Str (String c "")) <$> list_ascii_of_string s)
  | Array elements => Normal elements
  | Object props => Normal ((index_props props).*2 ++ (named_props props).*2)
  end.

(** ** Rectangle and fromJSON *)

(** What [fromJSON] uses of a prototype object: its [constructor], a function
    called with [new] on a list of arguments. *)
Record prototype (T : Type) : Type := { constructor : list value -> T }.
Arguments constructor {T} _ _.

(** The [i]-th argument of a call; a missing argument is [undefined]. *)
Definition argument (i : nat) (args : list value) : value :=
  default Undefined (args !! i).

Module Rectangle.

Record t : Type := mk { width : value; height : value }.

(** [new Rectangle(width, height)] *)
Definition new (args : list value) : t :=
  let width := argument 0 args in
  let height := argument 1 args in
  {| width := width; height := height |}.

(** [this.getArea = () => this.width * this.height]: the arrow function reads
    the fields of the object when it is called. *)
Definition getArea (this : t) : option value :=
  js_mul (width this) (height this).

Definition set_width (v : value) (this : t) : t := mk v (height this).
Definition set_height (v : value) (this : t) : t := mk (width this) v.

Definition prototype : prototype t := {| constructor := new |}.

End Rectangle.

Definition fromJSON {T : Type} (proto : prototype T) (json : string)
  : option (completion T) :=
  match JSON.parse json with
  | None => None
  | Some (Throw e) => Some (Throw e)
  | Some (Normal obj) =>
      match Object_values obj with
      | Throw e => Some (Throw e)
      | Normal values => Some (Normal (constructor proto values))
      end
  end.

Definition rectangle_json : string :=
  "{" +:+ dquote +:+ "width" +:+ dquote +:+ ":10,"
      +:+ dquote +:+ "height" +:+ dquote +:+ ":20}".

(** ** Notions for the further properties of the builder *)

(** A truthy fragment of kind [k] is stored: what the checks of the methods
    look at. *)
Definition present (k : kind) (this : SelectoCss.t) : bool :=
  truthy (field k this) || truthy_at (items k this !! 0).

(** No array starts with the empty string. *)
Definition heads_truthy (this : SelectoCss.t) : bool :=
  head_truthy Class this && head_truthy Attr this && head_truthy PseudoClass this.

Definition all_values_truthy (fs : list fragment) : bool :=
  forallb (fun f => truthy f.2) fs.

(** ** [JSON.stringify] of the host and getJSON *)

(** What [JSON.stringify] gives for a value: a text, [undefined] (for
    [undefined] and for a function), or nothing in this model (a string that
    needs an escape or is not ASCII, a number that is not an integer exact in
    a double). *)
Inductive serialized : Type :=
  | Rendered (text : string)
  | Omitted
  | Unmodelled.

Definition digit_char (d : Z) : ascii :=
  match d with
  | 0 => "0" | 1 => "1" | 2 => "2" | 3 => "3" | 4 => "4"
  | 5 => "5" | 6 => "6" | 7 => "7" | 8 => "8" | _ => "9"
  end%Z%char.

(** The decimal digits of [n], the last one first onto [acc]. *)
Fixpoint digits_go (fuel : nat) (n : Z) (acc : list ascii) : list ascii :=
  match fuel with
  | 0 => acc
  | S fuel =>
      let acc := digit_char (n mod 10) :: acc in
      if (n <? 10)%Z then acc else digits_go fuel (n / 10)%Z acc
  end.

(** An integer up to [2^53] has at most 16 digits. *)
Definition digits (n : Z) : list ascii := digits_go 16 n [].

Definition number_text (z : Z) : serialized :=
  if safe_integer z
  then Rendered (string_of_list_ascii
                   (if (z <? 0)%Z then "-"%char :: digits (- z) else digits z))
  else Unmodelled.

(** A character that a JSON string holds as it is. *)
Definition plain_char (c : ascii) : bool :=
  let n := nat_of_ascii c in
  (32 <=? n) && (n <=? 127) && negb (n =? 34) && negb (n =? 92).

Definition plain (s : string) : bool :=
  forallb plain_char (list_ascii_of_string s).

(** [QuoteJSONString], for a string of plain characters. *)
Definition quote (s : string) : option string :=
  if plain s then Some (dquote +:+ s +:+ dquote) else None.

Fixpoint insert_entry {A : Type} (n : Z) (p : string * A) (l : list (Z * (string * A)))
  : list (Z * (string * A)) :=
  match l with
  | [] => [(n, p)]
  | q :: l' => if (n <=? q.1)%Z then (n, p) :: l else q :: insert_entry n p l'
  end.

Fixpoint index_entries {A : Type} (props : list (string * A)) : list (Z * (string * A)) :=
  match props with
  | [] => []
  | (k, v) :: props' =>
      match array_index k with
      | Some n => insert_entry n (k, v) (index_entries props')
      | None => index_entries props'
      end
  end.

(** The own properties in the order of enumeration: index keys in ascending
    order, then the other keys in creation order. *)
Definition own_property_order {A : Type} (props : list (string * A)) : list (string * A) :=
  (index_entries props).*2 ++ filter (fun p => array_index p.1 = None) props.

(** The members of an object: a property whose value gives [undefined] is
    left out. *)
Fixpoint member_texts (ms : list (string * serialized)) : option (list string) :=
  match ms with
  | [] => Some []
  | (_, Omitted) :: ms' => member_texts ms'
  | (_, Unmodelled) :: _ => None
  | (k, Rendered t) :: ms' =>
      match quote k, member_texts ms' with
      | Some q, Some ts => Some ((q +:+ ":" +:+ t) :: ts)
      | _, _ => None
      end
  end.

Definition serialize_object (ms : list (string * serialized)) : serialized :=
  match member_texts (own_property_order ms) with
  | Some ts => Rendered ("{" +:+ String.concat "," ts +:+ "}")
  | None => Unmodelled
  end.

(** The elements of an array: an element that gives [undefined] is [null]. *)
Fixpoint element_texts (es : list serialized) : option (list string) :=
  match es with
  | [] => Some []
  | Unmodelled :: _ => None
  | e :: es' =>
      match element_texts es' with
      | Some ts => Some (match e with Rendered t => t | _ => "null" end :: ts)
      | None => None
      end
  end.

Definition serialize_array (es : list serialized) : serialized :=
  match element_texts es with
  | Some ts => Rendered ("[" +:+ String.concat "," ts +:+ "]")
  | None => Unmodelled
  end.

Fixpoint JSON_stringify (v : value) : serialized :=
  match v with
  | Undefined => Omitted
  | Null => Rendered "null"
  | Bool b => Rendered (if b then "true" else "false")
  | Number z => number_text z
  | Str s => match quote s with Some q => Rendered q | None => Unmodelled end
  | Array elements =>
      serialize_array
        ((fix go (l : list value) : list serialized :=
            match l with
            | [] => []
            | x :: l' => JSON_stringify x :: go l'
            end) elements)
  | Object props =>
      serialize_object
        ((fix go (l : list (string * value)) : list (string * serialized) :=
            match l with
            | [] => []
            | (k, x) :: l' => (k, JSON_stringify x) :: go l'
            end) props)
  end.

(** What [JSON.stringify] gives for the objects of a type. *)
Class Serializable (T : Type) : Type := serialize : T -> serialized.

#[global] Instance value_serializable : Serializable value := JSON_stringify.

(** A [Rectangle] has the own properties [width], [height] and [getArea], in
    that order; [getArea] holds a function, which gives [undefined]. *)
#[global] Instance rectangle_serializable : Serializable Rectangle.t :=
  fun this =>
    serialize_object
      [("width", JSON_stringify (Rectangle.width this));
       ("height", JSON_stringify (Rectangle.height this));
       ("getArea", Omitted)].

Definition getJSON {T : Type} `{Serializable T} (obj : T) : serialized :=
  serialize obj.

(** A value that [JSON.parse] gives back from its text: no [undefined], the
    numbers exact, the strings and keys plain, no key an array index and no
    key twice. *)
Fixpoint keys_distinct (ks : list string) : bool :=
  match ks with
  | [] => true
  | k :: ks' => negb (existsb (String.eqb k) ks') && keys_distinct ks'
  end.

Fixpoint json_value (v : value) : bool :=
  match v with
  | Undefined => false
  | Null | Bool _ => true
  | Number z => safe_integer z
  | Str s => plain s
  | Array elements =>
      (fix go (l : list value) : bool :=
         match l with
         | [] => true
         | x :: l' => json_value x && go l'
         end) elements
  | Object props =>
      keys_distinct props.*1
      && (fix go (l : list (string * value)) : bool :=
            match l with
            | [] => true
            | (k, x) :: l' =>
                plain k && bool_decide (array_index k = None) && json_value x && go l'
            end) props
  end.

(** What may follow the text of a value: the end of the text, or the comma or
    the closing bracket or brace of the array or object that holds it. *)
Definition delimited (rest : list ascii) : bool :=
  match rest with
  | [] => true
  | c :: _ => Ascii.eqb c "," || Ascii.eqb c "]" || Ascii.eqb c "}"
  end.

(** A character that the text of a value starts with. *)
Definition opens_value (c : ascii) : bool :=
  negb (JSON.is_ws c) && negb (Ascii.eqb c "]") && negb (Ascii.eqb c "}")
  && negb (Ascii.eqb c ",").

(** The text [t] reads back as the value [v]: it starts like a value, and
    [JSON.parse_value] with fuel for its length reads [v] from it and stops at
    what follows. *)
Definition reads_back (v : value) (t : string) : Prop :=
  (exists c cs, list_ascii_of_string t = c :: cs /\ opens_value c = true)
  /\ forall (fuel : nat) (rest : list ascii),
       length (list_ascii_of_string t) <= fuel ->
       delimited rest = true ->
       JSON.parse_value fuel (list_ascii_of_string t ++ rest) = JSON.Parsed v rest.

(** The text of a member: the quoted key, a colon, the text of the value. *)
Definition member_text (k t : string) : string :=
  dquote +:+ k +:+ dquote +:+ ":" +:+ t.

(** A value that passes [json_value] has a text, and the text reads back. *)
Definition comes_back (v : value) : Prop :=
  json_value v = true ->
  exists t, JSON_stringify v = Rendered t /\ reads_back v t.

Example stringify_new : SelectoCss.stringify (SelectoCss.constructor "") = "".
Proof. reflexivity. Qed.

Example chain_doc_example :
  (let (r, this) :=
     chain [(Tag, "a"); (Attr, "href$=" +:+ dquote +:+ ".png" +:+ dquote); (PseudoClass, "focus")]
       (SelectoCss.constructor "") in
   (r, SelectoCss.stringify this))
  = (Normal tt, "a[href$=" +:+ dquote +:+ ".png" +:+ dquote +:+ "]:focus").
Proof. vm_compute. reflexivity. Qed.

Example class_empty_first :
  (let (r, this) := chain [(Class, ""); (Class, "a")] (SelectoCss.constructor "") in
   (r, SelectoCss.stringify this, spec_render [(Class, ""); (Class, "a")]))
  = (Normal tt, "", "..a").
Proof. vm_compute. reflexivity. Qed.

Example fromJSON_rectangle_value :
  fromJSON Rectangle.prototype rectangle_json
  = Some (Normal (Rectangle.mk (Number 10) (Number 20))).
Proof. vm_compute. reflexivity. Qed.

(** * Properties *)

(** ** Strings *)

Lemma append_empty_l (s : string) : "" +:+ s = s.
Proof. reflexivity. Qed.

Lemma append_empty_r (s : string) : s +:+ "" = s.
Proof.
  induction s as [|c s IH]; [reflexivity|].
  change (String c s +:+ "") with (String c (s +:+ "")). by rewrite IH.
Qed.

Lemma append_assoc (s1 s2 s3 : string) : (s1 +:+ s2) +:+ s3 = s1 +:+ s2 +:+ s3.
Proof.
  induction s1 as [|c s1 IH]; [reflexivity|].
  change (String c (s1 +:+ s2) +:+ s3 = String c (s1 +:+ s2 +:+ s3)).
  change (String c ((s1 +:+ s2) +:+ s3) = String c (s1 +:+ s2 +:+ s3)).
  by rewrite IH.
Qed.

Lemma concat_strings_app (l1 l2 : list string) :
  concat_strings (l1 ++ l2) = concat_strings l1 +:+ concat_strings l2.
Proof.
  induction l1 as [|s l1 IH]; [reflexivity|].
  cbn [app concat_strings foldr]. fold (concat_strings (l1 ++ l2)).
  fold (concat_strings l1). by rewrite IH, append_assoc.
Qed.

Lemma truthy_true (s : string) : truthy s = true <-> s ≠ "".
Proof. destruct s; simpl; split; congruence. Qed.


(** ** The methods, one description for the six *)

Ltac unfold_methods :=
  unfold call, SelectoCss.element, SelectoCss.id, SelectoCss.class, SelectoCss.attr,
    SelectoCss.pseudoClass, SelectoCss.pseudoElement, throw_if, get, modify;
  unfold mbind, mret, mthrow, stateExn_bind, stateExn_ret, stateExn_throw.

Ltac unfold_prog :=
  unfold mbind, mret, mthrow, stateExn_bind, stateExn_ret, stateExn_throw.

Lemma create_unfold (k : kind) (value : string) :
  cssSelectorBuilder.create k value
  = (l ← alloc (OSelectoCss (SelectoCss.constructor "")); invoke l k value).
Proof. by destruct k. Qed.

(** A method throws the duplicate error, else the ordering error, else it
    stores the fragment; a throw happens before any field is written. *)
Lemma call_unfold (k : kind) (v : string) (this : SelectoCss.t) :
  call k v this =
    if already_set k this then (Throw (Error SelectoCss.msg_once), this)
    else if later_present k this then (Throw (Error SelectoCss.msg_order), this)
    else (Normal tt, store k v this).
Proof.
  destruct k; unfold already_set, later_present, store, field; unfold_methods; simpl;
    repeat match goal with
      | |- context [if ?b then _ else _] => destruct b; simpl
      end; reflexivity.
Qed.

Lemma fold_left_append (f : string -> string) (l : list string) (res : string) :
  fold_left (fun res x => res +:+ f x) l res = res +:+ concat_strings (f <$> l).
Proof.
  revert res. induction l as [|x l IH]; intros res; simpl.
  - by rewrite append_empty_r.
  - rewrite IH. apply append_assoc.
Qed.

(** [stringify] is the six parts, one after the other. *)
Lemma stringify_parts (this : SelectoCss.t) :
  SelectoCss.stringify this =
    part Tag this +:+ part Id this +:+ part Class this +:+ part Attr this
    +:+ part PseudoClass this +:+ part PseudoElement this.
Proof.
  unfold SelectoCss.stringify, part.
  rewrite (fold_left_append (fun cl => "." +:+ cl)).
  rewrite (fold_left_append (fun atr => "[" +:+ atr +:+ "]")).
  rewrite (fold_left_append (fun psev => ":" +:+ psev)).
  unfold concat_strings.
  repeat match goal with
    | |- context [if ?b then _ else _] => destruct b
    end;
    rewrite ?append_empty_l, ?append_empty_r, ?append_assoc; reflexivity.
Qed.

(** ** Chains *)

Lemma chain_cons (k : kind) (v : string) (fs : list fragment) (this : SelectoCss.t) :
  chain ((k, v) :: fs) this =
    match call k v this with
    | (Normal _, this') => chain fs this'
    | (Throw e, this') => (Throw e, this')
    end.
Proof. reflexivity. Qed.

Lemma chain_normal_inv k v fs this this2 :
  chain ((k, v) :: fs) this = (Normal tt, this2) ->
  already_set k this = false /\ later_present k this = false
  /\ chain fs (store k v this) = (Normal tt, this2).
Proof.
  rewrite chain_cons, call_unfold.
  destruct (already_set k this); [discriminate|].
  destruct (later_present k this); [discriminate|]. auto.
Qed.

Lemma of_kind_cons (k k0 : kind) (v : string) (fs : list fragment) :
  of_kind k ((k0, v) :: fs) =
    if decide (k0 = k) then (k0, v) :: of_kind k fs else of_kind k fs.
Proof. unfold of_kind. rewrite filter_cons. simpl. by destruct (decide (k0 = k)). Qed.

Lemma of_kind_fragments (k : kind) (fs : list fragment) :
  spec_fragment <$> of_kind k fs = (fun v => spec_fragment (k, v)) <$> (of_kind k fs).*2.
Proof.
  induction fs as [|[k0 v] fs IH]; [reflexivity|].
  rewrite of_kind_cons. destruct (decide (k0 = k)) as [->|]; [|done].
  rewrite !fmap_cons. by rewrite IH.
Qed.

Lemma items_store (k k0 : kind) (v : string) (this : SelectoCss.t) :
  singleton k = false ->
  items k (store k0 v this) = items k this ++ (if decide (k0 = k) then [v] else []).
Proof.
  intros Hk. destruct k; try discriminate; destruct k0; simpl;
    rewrite ?app_nil_r; reflexivity.
Qed.

Lemma field_store (k k0 : kind) (v : string) (this : SelectoCss.t) :
  singleton k = true ->
  field k (store k0 v this) = if decide (k0 = k) then v else field k this.
Proof. intros Hk. destruct k; try discriminate; destruct k0; reflexivity. Qed.

(** The arrays after a chain that ran to its end: what was there, then the
    values of that kind in the order of the calls. *)
Lemma chain_items (k : kind) (fs : list fragment) :
  singleton k = false ->
  forall this this',
    chain fs this = (Normal tt, this') ->
    items k this' = items k this ++ (of_kind k fs).*2.
Proof.
  intros Hk. induction fs as [|[k0 v] fs IH]; intros this this' H.
  - injection H as <-. by rewrite app_nil_r.
  - apply chain_normal_inv in H as (_ & _ & H). apply IH in H.
    rewrite H, items_store, of_kind_cons by done.
    destruct (decide (k0 = k)); simpl; by rewrite <- ?app_assoc, ?app_nil_r.
Qed.

Lemma part_singleton (k : kind) (this : SelectoCss.t) :
  singleton k = true ->
  part k this = if truthy (field k this) then spec_fragment (k, field k this) else "".
Proof. intros Hk. destruct k; try discriminate; reflexivity. Qed.

Lemma part_repeatable (k : kind) (this : SelectoCss.t) :
  singleton k = false ->
  part k this =
    if truthy_at (items k this !! 0)
    then concat_strings ((fun v => spec_fragment (k, v)) <$> items k this)
    else "".
Proof. intros Hk. destruct k; try discriminate; reflexivity. Qed.

Lemma spec_fragment_truthy (k : kind) (v : string) :
  k = Tag \/ truthy v = true ->
  (if truthy v then spec_fragment (k, v) else "") = spec_fragment (k, v).
Proof.
  intros [->|Hv]; [|by rewrite Hv].
  by destruct v.
Qed.

(** A singleton kind after a chain that ran to its end: every setter of that
    kind found the field falsy, so what is rendered for the kind is what was
    there followed by the fragments of that kind. *)
Lemma chain_part_singleton (k : kind) (fs : list fragment) :
  singleton k = true ->
  k = Tag \/ all_truthy k fs = true ->
  forall this this',
    chain fs this = (Normal tt, this') ->
    part k this +:+ concat_strings (spec_fragment <$> of_kind k fs) = part k this'.
Proof.
  intros Hk. induction fs as [|[k0 v] fs IH]; intros Hv this this' H.
  - injection H as <-. apply append_empty_r.
  - apply chain_normal_inv in H as (Hset & _ & H).
    unfold all_truthy in *. rewrite of_kind_cons in *.
    destruct (decide (k0 = k)) as [->|Hne].
    + assert (k = Tag \/ truthy v = true) as Hv1.
      { destruct Hv as [?|Hv]; [by left|right].
        simpl in Hv. by apply andb_true_iff in Hv as [? _]. }
      assert (k = Tag \/ forallb (fun f : fragment => truthy f.2) (of_kind k fs) = true)
        as Hv2.
      { destruct Hv as [?|Hv]; [by left|right].
        simpl in Hv. by apply andb_true_iff in Hv as [_ ?]. }
      rewrite <- (IH Hv2 _ _ H).
      unfold already_set in Hset. rewrite Hk in Hset. simpl in Hset.
      rewrite !part_singleton, Hset, field_store by done.
      rewrite decide_True by done.
      rewrite spec_fragment_truthy by done.
      rewrite fmap_cons. reflexivity.
    + rewrite <- (IH Hv _ _ H).
      rewrite !part_singleton, field_store by done.
      by rewrite decide_False.
Qed.

Lemma chain_part_repeatable (k : kind) (fs : list fragment) (this' : SelectoCss.t) :
  singleton k = false ->
  first_truthy k fs = true ->
  chain fs (SelectoCss.constructor "") = (Normal tt, this') ->
  part k this' = concat_strings (spec_fragment <$> of_kind k fs).
Proof.
  intros Hk Hfirst H.
  apply (chain_items k fs Hk) in H.
  assert (items k (SelectoCss.constructor "") = []) as Hnew by by destruct k.
  rewrite Hnew in H. simpl in H.
  rewrite part_repeatable, H, of_kind_fragments by done.
  unfold first_truthy in Hfirst.
  destruct (of_kind k fs) as [|[k0 v] l]; [reflexivity|].
  simpl in *. by rewrite Hfirst.
Qed.

Lemma part_new (k : kind) : part k (SelectoCss.constructor "") = "".
Proof. by destruct k. Qed.

Lemma rendered_in_full_inv (fs : list fragment) :
  rendered_in_full fs = true ->
  all_truthy Id fs = true /\ all_truthy PseudoElement fs = true
  /\ first_truthy Class fs = true /\ first_truthy Attr fs = true
  /\ first_truthy PseudoClass fs = true.
Proof.
  unfold rendered_in_full. rewrite !andb_true_iff. tauto.
Qed.

(** ** Chains in order run to their end *)

Lemma call_returns (k : kind) (v : string) (this : SelectoCss.t) :
  absent_from (free_rank k) this ->
  call k v this = (Normal tt, store k v this).
Proof.
  intros Habs. rewrite call_unfold.
  assert (already_set k this = false) as ->.
  { unfold already_set. destruct (singleton k) eqn:Hk; [|done].
    simpl. apply (Habs k). unfold free_rank. by rewrite Hk. }
  assert (later_present k this = false) as ->; [|done].
  pose proof (Habs Id) as HId. pose proof (Habs Class) as HClass.
  pose proof (Habs Attr) as HAttr. pose proof (Habs PseudoClass) as HPseudoClass.
  pose proof (Habs PseudoElement) as HPseudoElement.
  destruct k; unfold free_rank in *; simpl in *;
    repeat match goal with
      | H : ?n <= ?m -> _ |- _ =>
          first [ specialize (H ltac:(lia)); destruct H | clear H ]
      end;
    repeat match goal with
      | H : _ = false |- _ => rewrite H; clear H
      end; reflexivity.
Qed.

Lemma absent_from_store (k : kind) (v : string) (n m : nat) (this : SelectoCss.t) :
  absent_from m this -> m <= n -> rank k < n ->
  absent_from n (store k v this).
Proof.
  intros Habs Hmn Hk k' Hk'.
  destruct (Habs k' ltac:(lia)) as [Hf Hi].
  destruct k, k'; simpl in Hk, Hk'; try lia; done.
Qed.

Lemma chain_returns (fs : list fragment) :
  ordered_once fs = true ->
  forall this,
    match fs with
    | [] => True
    | f :: _ => absent_from (free_rank f.1) this
    end ->
    exists this', chain fs this = (Normal tt, this').
Proof.
  induction fs as [|[k v] fs IH]; intros Hord this Habs.
  - by exists this.
  - rewrite chain_cons, (call_returns k v this Habs).
    destruct fs as [|[k' v'] fs]; [by eexists|].
    cbn [ordered_once] in Hord. apply andb_true_iff in Hord as [Hstep Hord].
    apply (IH Hord). simpl in *.
    assert (rank k < free_rank k' /\ free_rank k <= free_rank k') as [? ?].
    { unfold free_rank. destruct (singleton k'), (singleton k);
        [apply Nat.ltb_lt in Hstep|apply Nat.ltb_lt in Hstep
        |apply Nat.leb_le in Hstep|apply Nat.leb_le in Hstep]; lia. }
    by apply (absent_from_store k v _ (free_rank k)).
Qed.

(** Fragments applied to a new builder in order, each singleton kind at most
    once: every call returns. *)
Lemma ordered_chain_returns (fs : list fragment) :
  ordered_once fs = true ->
  exists this, chain fs (SelectoCss.constructor "") = (Normal tt, this).
Proof.
  intros Hord. apply (chain_returns fs Hord).
  destruct fs as [|[k v] fs]; [done|].
  intros k' _. by destruct k'.
Qed.

(** ** C1: what [stringify] returns *)

Lemma invoke_all_chain (l : loc) (fs : list fragment) :
  forall (h h' : heap) (l' : loc) (this0 : SelectoCss.t),
    h !! l = Some (OSelectoCss this0) ->
    invoke_all l fs h = (Normal l', h') ->
    l' = l
    /\ exists this,
         chain fs this0 = (Normal tt, this) /\ h' = <[l := OSelectoCss this]> h.
Proof.
  induction fs as [|[k v] fs IH]; intros h h' l' this0 Hl H.
  - injection H as <- <-. split; [done|]. exists this0.
    split; [done|]. by rewrite insert_id.
  - cbn [invoke_all] in H. unfold mbind, stateExn_bind, invoke in H.
    rewrite Hl in H. rewrite chain_cons.
    destruct (call k v this0) as [[[]|e] this1]; [|discriminate].
    apply (IH _ _ _ this1) in H as [-> (this & Hchain & ->)];
      [|apply lookup_insert_eq].
    split; [done|]. exists this. split; [done|]. apply insert_insert_eq.
Qed.

(** A builder made through the public operations holds what the chain of its
    fragments leaves in a new [SelectoCss]. *)
Lemma build_chain (f : fragment) (fs : list fragment) (h h' : heap) (l : loc) :
  build f fs h = (Normal l, h') ->
  exists this,
    chain (f :: fs) (SelectoCss.constructor "") = (Normal tt, this)
    /\ h' !! l = Some (OSelectoCss this).
Proof.
  destruct f as [k v]. unfold build. cbn [fst snd]. rewrite create_unfold. unfold_prog.
  unfold alloc. unfold invoke at 1. rewrite lookup_insert_eq, chain_cons.
  destruct (call k v (SelectoCss.constructor "")) as [[[]|e] this1]; [|discriminate].
  intros H.
  apply (invoke_all_chain _ _ _ _ _ this1) in H as [-> (this & Hchain & ->)];
    [|apply lookup_insert_eq].
  exists this. split; [done|]. apply lookup_insert_eq.
Qed.

Lemma chain_stringify (fs : list fragment) (this : SelectoCss.t) :
  rendered_in_full fs = true ->
  chain fs (SelectoCss.constructor "") = (Normal tt, this) ->
  SelectoCss.stringify this = spec_render fs.
Proof.
  intros Hfull H.
  apply rendered_in_full_inv in Hfull as (Hid & Hpe & Hcl & Hat & Hpc).
  rewrite stringify_parts. unfold spec_render.
  rewrite !fmap_app, !concat_strings_app.
  rewrite <- (chain_part_singleton Tag fs eq_refl (or_introl eq_refl) _ _ H).
  rewrite <- (chain_part_singleton Id fs eq_refl (or_intror Hid) _ _ H).
  rewrite <- (chain_part_singleton PseudoElement fs eq_refl (or_intror Hpe) _ _ H).
  rewrite (chain_part_repeatable Class fs this eq_refl Hcl H).
  rewrite (chain_part_repeatable Attr fs this eq_refl Hat H).
  rewrite (chain_part_repeatable PseudoClass fs this eq_refl Hpc H).
  rewrite !part_new, !append_empty_l. reflexivity.
Qed.

(** C1, as stated, fails: [cssSelectorBuilder.class('').class('a')] is applied
    in order and both calls return, the rendering of the claim is ['..a'], and
    [stringify()] returns ['']. *)
Lemma C1_counterexample :
  ordered [(Class, ""); (Class, "a")] = true
  /\ spec_render [(Class, ""); (Class, "a")] = "..a"
  /\ exists (l : loc) (h' : heap),
       build (Class, "") [(Class, "a")] ∅ = (Normal l, h')
       /\ invoke_stringify l h' = (Normal "", h').
Proof.
  split; [reflexivity|]. split; [reflexivity|].
  do 2 eexists. split; vm_compute; reflexivity.
Qed.

(** C1 (amended): for every builder whose fragments were applied through the
    public operations in non-decreasing kind order, where no id and no
    pseudo-element is the empty string and the first class, the first attribute
    and the first pseudo-class are not the empty string, [stringify()] returns
    the concatenation of the fragments in the fixed order tag, id, classes,
    attributes, pseudo-classes, pseudo-element, each kind in insertion order,
    with the prefixes [''], [#], [.], [[...]], [:], [::] and nothing else. *)
Theorem C1_stringify_in_fixed_order
    (f : fragment) (fs : list fragment) (h h' : heap) (l : loc) :
  ordered (f :: fs) = true ->
  rendered_in_full (f :: fs) = true ->
  build f fs h = (Normal l, h') ->
  invoke_stringify l h' = (Normal (spec_render (f :: fs)), h').
Proof.
  intros _ Hfull H.
  apply build_chain in H as (this & Hchain & Hl).
  unfold invoke_stringify. rewrite Hl.
  by rewrite (chain_stringify _ _ Hfull Hchain).
Qed.

Lemma C1_witness :
  invoke_stringify 1%positive
    (build (Tag, "a")
       [(Attr, "href$=" +:+ dquote +:+ ".png" +:+ dquote); (PseudoClass, "focus")] ∅).2
  = (Normal
       (spec_render
          [(Tag, "a"); (Attr, "href$=" +:+ dquote +:+ ".png" +:+ dquote);
           (PseudoClass, "focus")]),
     (build (Tag, "a")
        [(Attr, "href$=" +:+ dquote +:+ ".png" +:+ dquote); (PseudoClass, "focus")] ∅).2).
Proof.
  apply (C1_stringify_in_fixed_order (Tag, "a")
           [(Attr, "href$=" +:+ dquote +:+ ".png" +:+ dquote); (PseudoClass, "focus")] ∅).
  - reflexivity.
  - reflexivity.
  - vm_compute. reflexivity.
Defined.

Example C1_doc_example :
  (l ← build (Tag, "a")
         [(Attr, "href$=" +:+ dquote +:+ ".png" +:+ dquote); (PseudoClass, "focus")];
   invoke_stringify l) ∅
  = (Normal ("a[href$=" +:+ dquote +:+ ".png" +:+ dquote +:+ "]:focus"),
     (build (Tag, "a")
        [(Attr, "href$=" +:+ dquote +:+ ".png" +:+ dquote); (PseudoClass, "focus")] ∅).2).
Proof. vm_compute. reflexivity. Qed.

Example C1_doc_example_2 :
  ((l ← build (Id, "main") [(Class, "container"); (Class, "editable")];
    invoke_stringify l) ∅).1
  = Normal "#main.container.editable".
Proof. vm_compute. reflexivity. Qed.

(** ** C2, C3: calls that must fail *)

Lemma call_normal_inv k v this this1 :
  call k v this = (Normal tt, this1) ->
  already_set k this = false /\ later_present k this = false /\ this1 = store k v this.
Proof.
  rewrite call_unfold.
  destruct (already_set k this); [discriminate|].
  destruct (later_present k this); [discriminate|].
  intros [= <-]. auto.
Qed.

Lemma stored_last_store (k : kind) (v : string) (this : SelectoCss.t) :
  stored_last k v this (store k v this).
Proof. unfold stored_last. destruct k; reflexivity. Qed.

Lemma truthy_at_push (l : list string) (v : string) :
  match l with [] => true | x :: _ => truthy x end = true ->
  truthy v = true ->
  truthy_at ((l ++ [v]) !! 0) = true.
Proof. destruct l; simpl; auto. Qed.

(** Once a truthy fragment of a later kind is stored, whichever call stored
    it, the ordering check of every earlier kind fires. *)
Lemma later_present_of_present (k k0 : kind) (this : SelectoCss.t) :
  rank k < rank k0 ->
  present k0 this = true ->
  later_present k this = true.
Proof.
  unfold present. intros Hrank H.
  destruct k0, k; simpl in Hrank; try lia; simpl in *;
    rewrite ?orb_false_r in H; rewrite H, ?orb_true_r; reflexivity.
Qed.

(** C2, as stated, fails: on a new builder [pseudoElement('')] returns and
    [element('a')] after it returns too, and stores the tag. *)
Lemma C2_counterexample :
  rank Tag < rank PseudoElement /\
  exists this1 this2,
    call PseudoElement "" (SelectoCss.constructor "") = (Normal tt, this1)
    /\ call Tag "a" this1 = (Normal tt, this2)
    /\ SelectoCss.elementTag this2 = "a".
Proof.
  split; [simpl; lia|]. do 2 eexists. split; [reflexivity|].
  split; reflexivity.
Qed.

(** C2 (amended): for every pair of kinds with rank(K1) > rank(K2) and every
    pair of values: when the call that appends the K1 fragment returns and the
    builder then holds a truthy K1 fragment where the checks look (the field of
    a singleton K1, that is v1, is a non-empty string; the first element of the
    array of a repeatable K1 is a non-empty string), the call that appends a K2
    fragment after it throws the InvalidSelectorStructure error and leaves the
    builder as the first call left it, with the K1 fragment in place. *)
Theorem C2_earlier_kind_after_later_kind_throws
    (k1 k2 : kind) (v1 v2 : string) (this this1 : SelectoCss.t) :
  rank k2 < rank k1 ->
  call k1 v1 this = (Normal tt, this1) ->
  present k1 this1 = true ->
  exists e,
    call k2 v2 this1 = (Throw e, this1)
    /\ InvalidSelectorStructure e
    /\ stored_last k1 v1 this this1.
Proof.
  intros Hrank H Hpres.
  apply call_normal_inv in H as (_ & _ & ->).
  rewrite call_unfold, (later_present_of_present k2 k1 _ Hrank Hpres).
  destruct (already_set k2 (store k1 v1 this)).
  - eexists. split; [reflexivity|]. split; [by left|apply stored_last_store].
  - eexists. split; [reflexivity|]. split; [by right|apply stored_last_store].
Qed.

Lemma C2_witness :
  exists e,
    call Id "x"
      (SelectoCss.push_elementClasses ""
         (SelectoCss.push_elementClasses "a" (SelectoCss.constructor "")))
      = (Throw e,
         SelectoCss.push_elementClasses ""
           (SelectoCss.push_elementClasses "a" (SelectoCss.constructor "")))
    /\ InvalidSelectorStructure e
    /\ stored_last Class ""
         (SelectoCss.push_elementClasses "a" (SelectoCss.constructor ""))
         (SelectoCss.push_elementClasses ""
            (SelectoCss.push_elementClasses "a" (SelectoCss.constructor ""))).
Proof.
  apply (C2_earlier_kind_after_later_kind_throws Class Id "" "x"
           (SelectoCss.push_elementClasses "a" (SelectoCss.constructor ""))).
  - simpl. lia.
  - reflexivity.
  - reflexivity.
Defined.

Example C2_non_empty_value :
  exists e,
    call Id "main" (SelectoCss.push_elementClasses "container" (SelectoCss.constructor ""))
    = (Throw e, SelectoCss.push_elementClasses "container" (SelectoCss.constructor ""))
    /\ InvalidSelectorStructure e.
Proof. eexists. split; [reflexivity|by right]. Qed.

(** C3, as stated, fails: on a new builder [element('')] returns, and
    [element('a')] after it returns too and replaces the stored value. *)
Lemma C3_counterexample :
  exists this1 this2,
    call Tag "" (SelectoCss.constructor "") = (Normal tt, this1)
    /\ call Tag "a" this1 = (Normal tt, this2)
    /\ field Tag this1 = ""
    /\ field Tag this2 = "a".
Proof. do 2 eexists. repeat split; reflexivity. Qed.

(** C3 (amended): for every singleton kind (tag, id, pseudo-element), every
    non-empty value v1 and every value v2: when the setter of that kind has
    returned for v1, calling it again on the same builder with v2 throws the
    InvalidSelectorStructure error (the duplicate message), and the stored
    value remains v1. *)
Theorem C3_second_setter_throws
    (k : kind) (v1 v2 : string) (this this1 : SelectoCss.t) :
  singleton k = true ->
  v1 ≠ "" ->
  call k v1 this = (Normal tt, this1) ->
  call k v2 this1 = (Throw (Error SelectoCss.msg_once), this1)
  /\ InvalidSelectorStructure (Error SelectoCss.msg_once)
  /\ field k this1 = v1.
Proof.
  intros Hk Hv H.
  apply call_normal_inv in H as (_ & _ & ->).
  apply truthy_true in Hv.
  assert (field k (store k v1 this) = v1) as Hfield.
  { rewrite field_store by done. by rewrite decide_True. }
  rewrite call_unfold. unfold already_set. rewrite Hk, Hfield, Hv. simpl.
  split; [reflexivity|]. split; [by left|done].
Qed.

Lemma C3_witness :
  call Id "other" (SelectoCss.set_elementId "main" (SelectoCss.constructor ""))
    = (Throw (Error SelectoCss.msg_once),
       SelectoCss.set_elementId "main" (SelectoCss.constructor ""))
  /\ InvalidSelectorStructure (Error SelectoCss.msg_once)
  /\ field Id (SelectoCss.set_elementId "main" (SelectoCss.constructor "")) = "main".
Proof.
  apply (C3_second_setter_throws Id "main" "other" (SelectoCss.constructor ""));
    [reflexivity|discriminate|reflexivity].
Defined.

(** ** C4, C10: how the methods fail *)

Lemma call_throw_inv k v this e this' :
  call k v this = (Throw e, this') ->
  this' = this
  /\ ((e = Error SelectoCss.msg_once /\ already_set k this = true)
      \/ (e = Error SelectoCss.msg_order /\ already_set k this = false
          /\ later_present k this = true)).
Proof.
  rewrite call_unfold.
  destruct (already_set k this).
  - intros [= <- <-]. auto.
  - destruct (later_present k this); [|discriminate].
    intros [= <- <-]. auto.
Qed.

Lemma invoke_throw (l : loc) k v (h : heap) this e :
  h !! l = Some (OSelectoCss this) ->
  call k v this = (Throw e, this) ->
  invoke l k v h = (Throw e, h).
Proof.
  intros Hl H. unfold invoke. rewrite Hl, H. by rewrite insert_id.
Qed.

(** C4: a builder operation that throws leaves the builder as it was. For
    every builder state and every call of [element], [id], [class], [attr],
    [pseudoClass] or [pseudoElement] that throws, the state after the call is
    the state before it, field by field; the call itself is what throws, for
    any reference to the builder, with the heap unchanged; and [stringify()]
    on that builder afterwards returns, and returns what it would have
    returned before the call. *)
Theorem C4_throwing_call_changes_nothing
    (k : kind) (v : string) (this this' : SelectoCss.t) (e : exn) :
  call k v this = (Throw e, this') ->
  this' = this
  /\ (SelectoCss.elementTag this' = SelectoCss.elementTag this
      /\ SelectoCss.elementId this' = SelectoCss.elementId this
      /\ SelectoCss.elementClasses this' = SelectoCss.elementClasses this
      /\ SelectoCss.elementAttr this' = SelectoCss.elementAttr this
      /\ SelectoCss.elementPseudoClasses this' = SelectoCss.elementPseudoClasses this
      /\ SelectoCss.elementPseudoElement this' = SelectoCss.elementPseudoElement this)
  /\ forall (h : heap) (l : loc),
       h !! l = Some (OSelectoCss this) ->
       invoke l k v h = (Throw e, h)
       /\ invoke_stringify l h = (Normal (SelectoCss.stringify this), h).
Proof.
  intros H. pose proof (call_throw_inv _ _ _ _ _ H) as [-> _].
  split; [reflexivity|]. split; [repeat split|].
  intros h l Hl. split; [by apply (invoke_throw l k v h this e)|].
  unfold invoke_stringify. by rewrite Hl.
Qed.

Lemma C4_witness :
  let this := SelectoCss.push_elementAttr "href" (SelectoCss.constructor "") in
  this = this
  /\ (SelectoCss.elementTag this = SelectoCss.elementTag this
      /\ SelectoCss.elementId this = SelectoCss.elementId this
      /\ SelectoCss.elementClasses this = SelectoCss.elementClasses this
      /\ SelectoCss.elementAttr this = SelectoCss.elementAttr this
      /\ SelectoCss.elementPseudoClasses this = SelectoCss.elementPseudoClasses this
      /\ SelectoCss.elementPseudoElement this = SelectoCss.elementPseudoElement this)
  /\ forall (h : heap) (l : loc),
       h !! l = Some (OSelectoCss this) ->
       invoke l Class "big" h = (Throw (Error SelectoCss.msg_order), h)
       /\ invoke_stringify l h = (Normal (SelectoCss.stringify this), h).
Proof.
  exact (C4_throwing_call_changes_nothing Class "big"
           (SelectoCss.push_elementAttr "href" (SelectoCss.constructor ""))
           (SelectoCss.push_elementAttr "href" (SelectoCss.constructor ""))
           (Error SelectoCss.msg_order) eq_refl).
Defined.

(** A state in which the duplicate check of a singleton kind fires, and one in
    which the ordering check of a kind before pseudo-element fires. *)
Lemma msg_once_raised (k : kind) :
  singleton k = true ->
  call k "x" (store k "y" (SelectoCss.constructor ""))
  = (Throw (Error SelectoCss.msg_once), store k "y" (SelectoCss.constructor "")).
Proof. intros Hk. destruct k; try discriminate; reflexivity. Qed.

Lemma msg_order_raised (k : kind) :
  k ≠ PseudoElement ->
  call k "x" (store PseudoElement "y" (SelectoCss.constructor ""))
  = (Throw (Error SelectoCss.msg_order), store PseudoElement "y" (SelectoCss.constructor "")).
Proof. intros Hk. destruct k; try congruence; reflexivity. Qed.

(** C10: every error thrown by a builder operation is a plain [Error] with one
    of two fixed messages that tell the violated rule: the duplicate message,
    thrown only by [element], [id] and [pseudoElement] and only when their
    field is set, and the ordering message, thrown only by [element], [id],
    [class], [attr] and [pseudoClass] and only when a later kind is present;
    the two messages differ, each of these methods does throw its message in
    some state, and [stringify()] throws nothing. *)
Theorem C10_two_error_messages :
  (forall (k : kind) (v : string) (this this' : SelectoCss.t) (e : exn),
     call k v this = (Throw e, this') ->
     (e = Error SelectoCss.msg_once
      /\ singleton k = true /\ truthy (field k this) = true)
     \/ (e = Error SelectoCss.msg_order
         /\ k ≠ PseudoElement /\ later_present k this = true))
  /\ SelectoCss.msg_once =
       "Element, id and pseudo-element should not occur more then one time inside the selector"
  /\ SelectoCss.msg_order =
       "Selector parts should be arranged in the following order: element, id, class, attribute, pseudo-class, pseudo-element"
  /\ SelectoCss.msg_once ≠ SelectoCss.msg_order
  /\ (forall k, singleton k = true ->
        exists v this, call k v this = (Throw (Error SelectoCss.msg_once), this))
  /\ (forall k, k ≠ PseudoElement ->
        exists v this, call k v this = (Throw (Error SelectoCss.msg_order), this))
  /\ (forall (h : heap) (l : loc) (this : SelectoCss.t),
        h !! l = Some (OSelectoCss this) ->
        invoke_stringify l h = (Normal (SelectoCss.stringify this), h)).
Proof.
  split; [|split; [reflexivity|split; [reflexivity|split; [discriminate|]]]].
  - intros k v this this' e H.
    apply call_throw_inv in H as [_ [[-> Hset]|(-> & _ & Hlater)]].
    + left. unfold already_set in Hset. apply andb_true_iff in Hset. tauto.
    + right. split; [reflexivity|]. split; [|done].
      intros ->. discriminate.
  - split; [|split].
    + intros k Hk. do 2 eexists. by apply msg_once_raised.
    + intros k Hk. do 2 eexists. by apply msg_order_raised.
    + intros h l this Hl. unfold invoke_stringify. by rewrite Hl.
Qed.

Lemma C10_witness :
  (Error SelectoCss.msg_once = Error SelectoCss.msg_once
   /\ singleton Tag = true
   /\ truthy (field Tag (SelectoCss.set_elementTag "div" (SelectoCss.constructor ""))) = true)
  \/ (Error SelectoCss.msg_once = Error SelectoCss.msg_order
      /\ Tag ≠ PseudoElement
      /\ later_present Tag (SelectoCss.set_elementTag "div" (SelectoCss.constructor ""))
         = true).
Proof.
  exact (proj1 C10_two_error_messages Tag "span"
           (SelectoCss.set_elementTag "div" (SelectoCss.constructor ""))
           (SelectoCss.set_elementTag "div" (SelectoCss.constructor ""))
           (Error SelectoCss.msg_once) eq_refl).
Defined.

(** ** C8, C9: the empty string *)







Lemma part_without_items (k k' : kind) (this : SelectoCss.t) :
  singleton k = false ->
  part k' (without_items k this) = if decide (k' = k) then "" else part k' this.
Proof. intros Hk. destruct k; try discriminate; destruct k'; reflexivity. Qed.

(** The guard of an array looks at its first element only. *)
Lemma empty_head_hides_items (k : kind) (this : SelectoCss.t) :
  singleton k = false ->
  items k this !! 0 = Some "" ->
  part k this = ""
  /\ SelectoCss.stringify this = SelectoCss.stringify (without_items k this).
Proof.
  intros Hk Hhead.
  assert (part k this = "") as Hpart.
  { rewrite part_repeatable by done. by rewrite Hhead. }
  split; [done|].
  rewrite !stringify_parts, !part_without_items by done.
  destruct k; try discriminate; rewrite Hpart; reflexivity.
Qed.

(** C9: for every repeatable kind (classes, attributes, pseudo-classes), when
    the first value appended to the array of that kind is the empty string,
    [stringify()] adds nothing for the kind, whatever was appended after it:
    the later values are in the array, and [stringify()] returns what it
    returns for the builder with that array emptied. *)
Theorem C9_empty_first_value_hides_the_array
    (k : kind) (fs : list fragment) (this this2 : SelectoCss.t) :
  singleton k = false ->
  items k this = [] ->
  chain ((k, "") :: fs) this = (Normal tt, this2) ->
  items k this2 = "" :: (of_kind k fs).*2
  /\ part k this2 = ""
  /\ SelectoCss.stringify this2 = SelectoCss.stringify (without_items k this2).
Proof.
  intros Hk Hempty H.
  apply chain_normal_inv in H as (_ & _ & H).
  apply (chain_items k fs Hk) in H.
  rewrite items_store, Hempty, decide_True in H by done. simpl in H.
  split; [done|]. apply empty_head_hides_items; [done|]. by rewrite H.
Qed.

Lemma C9_witness :
  let this2 :=
    SelectoCss.push_elementAttr "href"
      (SelectoCss.push_elementClasses "a"
         (SelectoCss.push_elementClasses "" (SelectoCss.set_elementTag "div"
            (SelectoCss.constructor "")))) in
  items Class this2 = "" :: (of_kind Class [(Class, "a"); (Attr, "href")]).*2
  /\ part Class this2 = ""
  /\ SelectoCss.stringify this2 = SelectoCss.stringify (without_items Class this2).
Proof.
  exact (C9_empty_first_value_hides_the_array Class [(Class, "a"); (Attr, "href")]
           (SelectoCss.set_elementTag "div" (SelectoCss.constructor "")) _
           eq_refl eq_refl eq_refl).
Defined.

Example C9_example :
  (chain [(Tag, "div"); (Class, ""); (Class, "a"); (Attr, "href")]
     (SelectoCss.constructor "")).1 = Normal tt
  /\ SelectoCss.stringify
       (chain [(Tag, "div"); (Class, ""); (Class, "a"); (Attr, "href")]
          (SelectoCss.constructor "")).2 = "div[href]".
Proof. split; reflexivity. Qed.

(** ** C5, C6: combined selectors *)

Lemma invoke_stringify_heap (l : loc) (h h' : heap) (r : completion string) :
  invoke_stringify l h = (r, h') -> h' = h.
Proof.
  unfold invoke_stringify. destruct (h !! l) as [[?|?]|]; by intros [= _ <-].
Qed.

Lemma alloc_fresh (o : object) (h : heap) : h !! fresh (dom h) = None.
Proof. apply not_elem_of_dom, is_fresh. Qed.

Lemma alloc_lookup (o : object) (h : heap) :
  (alloc o h).2 !! (fresh (dom h)) = Some o.
Proof. unfold alloc. simpl. apply lookup_insert_eq. Qed.

Lemma alloc_other (o o' : object) (h : heap) (l : loc) :
  h !! l = Some o' -> (alloc o h).2 !! l = Some o'.
Proof.
  intros Hl. unfold alloc. simpl. rewrite lookup_insert_ne; [done|].
  intros Heq. rewrite <- Heq, (alloc_fresh o) in Hl. discriminate.
Qed.

(** [combine] on two operands that render: a new object holding the two
    strings and the token. *)
Lemma combine_unfold (selector1 selector2 : loc) (token s1 s2 : string) (h : heap) :
  invoke_stringify selector1 h = (Normal s1, h) ->
  invoke_stringify selector2 h = (Normal s2, h) ->
  cssSelectorBuilder.combine selector1 token selector2 h
  = (Normal (fresh (dom h)), <[fresh (dom h) := OCombined (Combined.mk s1 s2 token)]> h).
Proof.
  intros H1 H2. unfold cssSelectorBuilder.combine. unfold_prog.
  rewrite H1, H2. reflexivity.
Qed.

Lemma combine_normal_inv (selector1 selector2 lc : loc) (token : string) (h h1 : heap) :
  cssSelectorBuilder.combine selector1 token selector2 h = (Normal lc, h1) ->
  exists s1 s2,
    invoke_stringify selector1 h = (Normal s1, h)
    /\ invoke_stringify selector2 h = (Normal s2, h)
    /\ h1 !! lc = Some (OCombined (Combined.mk s1 s2 token)).
Proof.
  unfold cssSelectorBuilder.combine. unfold_prog.
  destruct (invoke_stringify selector1 h) as [[s1|e1] h'] eqn:H1; [|discriminate].
  pose proof (invoke_stringify_heap _ _ _ _ H1) as ->.
  destruct (invoke_stringify selector2 h) as [[s2|e2] h'] eqn:H2; [|discriminate].
  pose proof (invoke_stringify_heap _ _ _ _ H2) as ->.
  unfold alloc. intros [= <- <-]. exists s1, s2.
  split; [done|]. split; [done|]. apply lookup_insert_eq.
Qed.

Lemma invoke_other (l l' : loc) (k : kind) (v : string) (h : heap) (c : Combined.t) :
  h !! l = Some (OCombined c) ->
  (invoke l' k v h).2 !! l = Some (OCombined c).
Proof.
  intros Hl. unfold invoke.
  destruct (h !! l') as [[this|c']|] eqn:Hl'; [|done..].
  assert (l' ≠ l) as Hne by (intros ->; congruence).
  destruct (call k v this) as [[[]|e] this']; simpl; by rewrite lookup_insert_ne.
Qed.

(** No action of a client changes a combined selector. *)
Lemma perform_combined (a : action) (h : heap) (l : loc) (c : Combined.t) :
  h !! l = Some (OCombined c) ->
  perform a h !! l = Some (OCombined c).
Proof.
  intros Hl. destruct a as [l' k v|k v|l1 token l2|l']; simpl.
  - by apply invoke_other.
  - rewrite create_unfold. unfold_prog.
    change (alloc (OSelectoCss (SelectoCss.constructor "")) h)
      with (Normal (fresh (dom h)), (alloc (OSelectoCss (SelectoCss.constructor "")) h).2).
    apply invoke_other. by apply alloc_other.
  - unfold cssSelectorBuilder.combine. unfold_prog.
    destruct (invoke_stringify l1 h) as [[s1|e1] h'] eqn:H1;
      pose proof (invoke_stringify_heap _ _ _ _ H1) as ->; [|done].
    destruct (invoke_stringify l2 h) as [[s2|e2] h'] eqn:H2;
      pose proof (invoke_stringify_heap _ _ _ _ H2) as ->; [|done].
    change ((alloc (OCombined (Combined.mk s1 s2 token)) h).2 !! l = Some (OCombined c)).
    by apply alloc_other.
  - destruct (invoke_stringify l' h) as [r h'] eqn:H1.
    by pose proof (invoke_stringify_heap _ _ _ _ H1) as ->.
Qed.

Lemma perform_all_combined (acts : list action) (h : heap) (l : loc) (c : Combined.t) :
  h !! l = Some (OCombined c) ->
  perform_all acts h !! l = Some (OCombined c).
Proof.
  revert h. induction acts as [|a acts IH]; intros h Hl; [done|].
  simpl. apply IH. by apply perform_combined.
Qed.

Lemma invoke_stringify_combined (l : loc) (h : heap) (c : Combined.t) :
  h !! l = Some (OCombined c) ->
  invoke_stringify l h = (Normal (Combined.stringify c), h).
Proof. intros Hl. unfold invoke_stringify. by rewrite Hl. Qed.

Example nested_example_result :
  (nested_example ∅).1
  = Normal "div#main.container.draggable + table#data ~ tr:nth-of-type(even)   td:nth-of-type(even)".
Proof. vm_compute. reflexivity. Qed.

Example change_after_combine_result :
  (change_after_combine ∅).1 = Normal ("div + span", "div#main", "div + span").
Proof. vm_compute. reflexivity. Qed.

Lemma combine_then_stringify
    (h : heap) (selector1 selector2 : loc) (token s1 s2 : string) :
  invoke_stringify selector1 h = (Normal s1, h) ->
  invoke_stringify selector2 h = (Normal s2, h) ->
  exists (lc : loc) (h1 : heap),
    cssSelectorBuilder.combine selector1 token selector2 h = (Normal lc, h1)
    /\ invoke_stringify lc h1 = (Normal (s1 +:+ " " +:+ token +:+ " " +:+ s2), h1).
Proof.
  intros H1 H2. do 2 eexists. split; [by apply combine_unfold|].
  apply (invoke_stringify_combined _ _ (Combined.mk s1 s2 token)).
  apply lookup_insert_eq.
Qed.

(** C6: [combine] takes any token. For every heap, every two operands that
    render (to [s1] and [s2]) and every string [token], [combine] returns a new
    selector, with no check of the token, and the [stringify()] of that
    selector returns [s1 + ' ' + token + ' ' + s2]. *)
Theorem C6_combine_interpolates_any_token
    (h : heap) (selector1 selector2 : loc) (token s1 s2 : string) :
  invoke_stringify selector1 h = (Normal s1, h) ->
  invoke_stringify selector2 h = (Normal s2, h) ->
  exists (lc : loc) (h1 : heap),
    cssSelectorBuilder.combine selector1 token selector2 h = (Normal lc, h1)
    /\ invoke_stringify lc h1 = (Normal (s1 +:+ " " +:+ token +:+ " " +:+ s2), h1).
Proof. apply combine_then_stringify. Qed.

Lemma C6_witness :
  exists (lc : loc) (h1 : heap),
    cssSelectorBuilder.combine 1%positive "not a combinator" 2%positive
      (<[2%positive := OSelectoCss (SelectoCss.set_elementTag "span" (SelectoCss.constructor ""))]>
         (<[1%positive := OSelectoCss (SelectoCss.set_elementId "main" (SelectoCss.constructor ""))]>
            ∅))
    = (Normal lc, h1)
    /\ invoke_stringify lc h1
       = (Normal ("#main" +:+ " " +:+ "not a combinator" +:+ " " +:+ "span"), h1).
Proof.
  apply C6_combine_interpolates_any_token; vm_compute; reflexivity.
Defined.

(** C5: [combine] keeps the two renderings of its operands as they are when it
    is called. When [combine(selector1, token, selector2)] has returned the
    selector [lc], both operands rendered at that time (to [s1] and [s2]), and
    after every sequence of builder operations of the client (method calls on
    either operand or on any other selector, new selectors, further
    combinations), [lc.stringify()] returns [s1 + ' ' + token + ' ' + s2]; a
    combination with [lc] as an operand holds that string as it is, on the
    left or on the right. *)
Theorem C5_combine_captures_strings
    (h h1 : heap) (selector1 selector2 lc : loc) (token : string) :
  cssSelectorBuilder.combine selector1 token selector2 h = (Normal lc, h1) ->
  exists s1 s2 : string,
    invoke_stringify selector1 h = (Normal s1, h)
    /\ invoke_stringify selector2 h = (Normal s2, h)
    /\ (forall acts : list action,
          invoke_stringify lc (perform_all acts h1)
          = (Normal (s1 +:+ " " +:+ token +:+ " " +:+ s2), perform_all acts h1))
    /\ (forall (acts : list action) (outer : string) (third : loc) (s3 : string),
          invoke_stringify third (perform_all acts h1) = (Normal s3, perform_all acts h1) ->
          (exists l3 h3,
             cssSelectorBuilder.combine lc outer third (perform_all acts h1) = (Normal l3, h3)
             /\ invoke_stringify l3 h3
                = (Normal ((s1 +:+ " " +:+ token +:+ " " +:+ s2) +:+ " " +:+ outer +:+ " " +:+ s3),
                   h3))
          /\ (exists l3 h3,
                cssSelectorBuilder.combine third outer lc (perform_all acts h1) = (Normal l3, h3)
                /\ invoke_stringify l3 h3
                   = (Normal (s3 +:+ " " +:+ outer +:+ " " +:+ s1 +:+ " " +:+ token +:+ " " +:+ s2),
                      h3))).
Proof.
  intros H. apply combine_normal_inv in H as (s1 & s2 & H1 & H2 & Hlc).
  exists s1, s2. split; [done|]. split; [done|].
  assert (forall acts,
            invoke_stringify lc (perform_all acts h1)
            = (Normal (s1 +:+ " " +:+ token +:+ " " +:+ s2), perform_all acts h1)) as Hkeep.
  { intros acts.
    apply (invoke_stringify_combined _ _ (Combined.mk s1 s2 token)).
    by apply perform_all_combined. }
  split; [done|].
  intros acts outer third s3 H3. split.
  - apply combine_then_stringify; [apply Hkeep|done].
  - apply combine_then_stringify; [done|apply Hkeep].
Qed.

Lemma C5_witness :
  (invoke_stringify 3%positive
     (perform_all [Invoke 1%positive Id "main"; Invoke 2%positive Class "wide";
                   Create Tag "p"; Invoke 3%positive Id "x"]
        (cssSelectorBuilder.combine 1%positive "+" 2%positive two_selectors).2)).1
  = Normal "div + span".
Proof.
  destruct (C5_combine_captures_strings two_selectors
              (cssSelectorBuilder.combine 1%positive "+" 2%positive two_selectors).2
              1%positive 2%positive 3%positive "+")
    as (s1 & s2 & H1 & H2 & Hkeep & _).
  - vm_compute. reflexivity.
  - rewrite Hkeep. simpl.
    assert (s1 = "div") as -> by (vm_compute in H1; congruence).
    assert (s2 = "span") as -> by (vm_compute in H2; congruence).
    reflexivity.
Defined.

(** ** C7: fromJSON and Rectangle *)

Lemma fromJSON_normal_iff {T : Type} (proto : prototype T) (json : string) (o : T) :
  fromJSON proto json = Some (Normal o) <->
  exists obj values,
    JSON.parse json = Some (Normal obj)
    /\ Object_values obj = Normal values
    /\ o = constructor proto values.
Proof.
  unfold fromJSON. split.
  - destruct (JSON.parse json) as [[obj|e]|]; [|discriminate..].
    destruct (Object_values obj) as [values|e] eqn:Hvalues; [|discriminate].
    intros [= <-]. by exists obj, values.
  - intros (obj & values & -> & -> & ->). reflexivity.
Qed.

Lemma index_props_none (props : list (string * value)) :
  Forall (fun p => array_index p.1 = None) props -> index_props props = [].
Proof.
  induction 1 as [|[k v] props Hk _ IH]; [reflexivity|].
  simpl in *. by rewrite Hk.
Qed.

Lemma named_props_all (props : list (string * value)) :
  Forall (fun p => array_index p.1 = None) props -> named_props props = props.
Proof.
  induction 1 as [|[k v] props Hk _ IH]; [reflexivity|].
  unfold named_props in *. rewrite filter_cons, decide_True by done. by rewrite IH.
Qed.

(** C7: [fromJSON(proto, json)] parses the text, takes the values of the parsed
    object in its iteration order (creation order, when no key is an array
    index) and calls the constructor of [proto] with them, argument by
    argument; [fromJSON(Rectangle.prototype, '{"width":10,"height":20}')] is an
    object with [width] 10 and [height] 20 whose [getArea()] is 200; and
    [getArea()] multiplies the fields as they are when it is called. *)
Theorem C7_fromJSON_builds_rectangle :
  (forall (T : Type) (proto : prototype T) (json : string) (o : T),
     fromJSON proto json = Some (Normal o) <->
     exists obj values,
       JSON.parse json = Some (Normal obj)
       /\ Object_values obj = Normal values
       /\ o = constructor proto values)
  /\ (forall props : list (string * value),
        Forall (fun p => array_index p.1 = None) props ->
        Object_values (Object props) = Normal props.*2)
  /\ (forall values : list value,
        constructor Rectangle.prototype values
        = Rectangle.mk (argument 0 values) (argument 1 values))
  /\ JSON.parse rectangle_json
     = Some (Normal (Object [("width", Number 10); ("height", Number 20)]))
  /\ (exists r : Rectangle.t,
        fromJSON Rectangle.prototype rectangle_json = Some (Normal r)
        /\ Rectangle.width r = Number 10
        /\ Rectangle.height r = Number 20
        /\ Rectangle.getArea r = Some (Number 200))
  /\ (forall (r : Rectangle.t) (w h : value),
        Rectangle.getArea (Rectangle.set_height h (Rectangle.set_width w r)) = js_mul w h)
  /\ (forall w h : Z,
        safe_integer (w * h) = true ->
        Rectangle.getArea (Rectangle.mk (Number w) (Number h)) = Some (Number (w * h))).
Proof.
  split; [intros; apply fromJSON_normal_iff|].
  split.
  { intros props Hprops. simpl.
    by rewrite index_props_none, named_props_all. }
  split; [reflexivity|].
  split; [vm_compute; reflexivity|].
  split.
  { eexists. split; [vm_compute; reflexivity|]. repeat split. }
  split; [reflexivity|].
  intros w h Hsafe. unfold Rectangle.getArea. simpl. by rewrite Hsafe.
Qed.

Lemma C7_witness :
  Rectangle.getArea (Rectangle.mk (Number 10) (Number 20)) = Some (Number (10 * 20)).
Proof.
  exact (proj2 (proj2 (proj2 (proj2 (proj2 (proj2 C7_fromJSON_builds_rectangle)))))
           10%Z 20%Z eq_refl).
Defined.

(** * Further properties of the selector builder *)

(** ** One call *)

Lemma mean_store (k : kind) (v : string) (this : SelectoCss.t) :
  SelectoCss.mean (store k v this) = SelectoCss.mean this.
Proof. by destruct k. Qed.

Lemma field_store_other (k k' : kind) (v : string) (this : SelectoCss.t) :
  k' ≠ k -> field k' (store k v this) = field k' this.
Proof. intros Hne. destruct k, k'; try reflexivity; congruence. Qed.

Lemma items_store_other (k k' : kind) (v : string) (this : SelectoCss.t) :
  k' ≠ k -> items k' (store k v this) = items k' this.
Proof. intros Hne. destruct k, k'; try reflexivity; congruence. Qed.

(** X1: a builder method that returns changes the slot of its own kind and
    nothing else: the fragment is stored last for its kind, the fields and
    arrays of the five other kinds and [mean] are what they were. *)
Theorem call_changes_only_its_kind
    (k : kind) (v : string) (this this1 : SelectoCss.t) :
  call k v this = (Normal tt, this1) ->
  stored_last k v this this1
  /\ SelectoCss.mean this1 = SelectoCss.mean this
  /\ forall k', k' ≠ k ->
       field k' this1 = field k' this /\ items k' this1 = items k' this.
Proof.
  intros H. apply call_normal_inv in H as (_ & _ & ->).
  split; [apply stored_last_store|]. split; [apply mean_store|].
  intros k' Hne. split; [by apply field_store_other|by apply items_store_other].
Qed.

Lemma call_changes_only_its_kind_witness :
  stored_last Class "big" (SelectoCss.set_elementTag "div" (SelectoCss.constructor ""))
    (SelectoCss.push_elementClasses "big"
       (SelectoCss.set_elementTag "div" (SelectoCss.constructor "")))
  /\ field Tag
       (SelectoCss.push_elementClasses "big"
          (SelectoCss.set_elementTag "div" (SelectoCss.constructor ""))) = "div".
Proof.
  destruct (call_changes_only_its_kind Class "big"
              (SelectoCss.set_elementTag "div" (SelectoCss.constructor ""))
              (SelectoCss.push_elementClasses "big"
                 (SelectoCss.set_elementTag "div" (SelectoCss.constructor "")))
              eq_refl) as (Hlast & _ & Hother).
  split; [exact Hlast|]. destruct (Hother Tag) as [Hfield _]; [discriminate|].
  exact Hfield.
Defined.

(** X2: the duplicate check comes first. A setter of a singleton kind whose
    field holds a non-empty string throws the duplicate message and changes
    nothing, whatever else the builder holds, also when fragments of later
    kinds are there. *)
Theorem duplicate_error_first
    (k : kind) (v : string) (this : SelectoCss.t) :
  singleton k = true ->
  field k this ≠ "" ->
  call k v this = (Throw (Error SelectoCss.msg_once), this).
Proof.
  intros Hk Hfield. apply truthy_true in Hfield.
  rewrite call_unfold. unfold already_set. by rewrite Hk, Hfield.
Qed.

Lemma duplicate_error_first_witness :
  call Tag "span"
    (SelectoCss.push_elementClasses "big"
       (SelectoCss.set_elementTag "div" (SelectoCss.constructor "")))
  = (Throw (Error SelectoCss.msg_once),
     SelectoCss.push_elementClasses "big"
       (SelectoCss.set_elementTag "div" (SelectoCss.constructor ""))).
Proof.
  apply duplicate_error_first; [reflexivity|discriminate].
Defined.

(** X3: a repeatable kind can be repeated. When [class], [attr] or
    [pseudoClass] has returned, the same method called again on that builder
    returns too, for every value, and the array of the kind ends with the two
    values in the order of the calls. *)
Theorem repeatable_kind_repeats
    (k : kind) (v1 v2 : string) (this this1 : SelectoCss.t) :
  singleton k = false ->
  call k v1 this = (Normal tt, this1) ->
  call k v2 this1 = (Normal tt, store k v2 this1)
  /\ items k (store k v2 this1) = items k this ++ [v1; v2].
Proof.
  intros Hk H. apply call_normal_inv in H as (_ & Hlater & ->).
  split.
  - rewrite call_unfold. unfold already_set. rewrite Hk. simpl.
    assert (later_present k (store k v1 this) = false) as ->; [|done].
    destruct k; try discriminate; exact Hlater.
  - rewrite !items_store by done. rewrite !decide_True by done.
    by rewrite <- app_assoc.
Qed.

Lemma repeatable_kind_repeats_witness :
  call Class "b" (SelectoCss.push_elementClasses "a" (SelectoCss.constructor ""))
  = (Normal tt,
     store Class "b" (SelectoCss.push_elementClasses "a" (SelectoCss.constructor "")))
  /\ items Class
       (store Class "b" (SelectoCss.push_elementClasses "a" (SelectoCss.constructor "")))
     = items Class (SelectoCss.constructor "") ++ ["a"; "b"].
Proof.
  apply (repeatable_kind_repeats Class "a" "b" (SelectoCss.constructor ""));
    reflexivity.
Defined.

(** X4: a non-empty pseudo-element closes the builder. Once the
    pseudo-element is a non-empty string, each of the six methods throws, for
    every value, and the builder stays as it is. *)
Theorem pseudo_element_closes_the_builder
    (k : kind) (v : string) (this : SelectoCss.t) :
  SelectoCss.elementPseudoElement this ≠ "" ->
  exists e, call k v this = (Throw e, this) /\ InvalidSelectorStructure e.
Proof.
  intros Hpe. apply truthy_true in Hpe. rewrite call_unfold.
  destruct (already_set k this) eqn:Hset.
  - eexists. split; [reflexivity|by left].
  - assert (later_present k this = true) as ->.
    { destruct k; simpl; rewrite ?Hpe, ?orb_true_r; try reflexivity.
      unfold already_set in Hset. simpl in Hset. congruence. }
    eexists. split; [reflexivity|by right].
Qed.

Lemma pseudo_element_closes_the_builder_witness :
  exists e,
    call PseudoClass "hover"
      (SelectoCss.set_elementPseudoElement "after" (SelectoCss.constructor ""))
    = (Throw e, SelectoCss.set_elementPseudoElement "after" (SelectoCss.constructor ""))
    /\ InvalidSelectorStructure e.
Proof.
  apply pseudo_element_closes_the_builder. discriminate.
Defined.

(** ** Chains of calls *)

(** X5: a chain that throws stops at the first call that throws. The builder
    then holds what the calls before that one stored, and the error is the one
    of that call; the calls after it are not made. *)
Theorem chain_stops_at_first_throw
    (fs : list fragment) (this this' : SelectoCss.t) (e : exn) :
  chain fs this = (Throw e, this') ->
  exists (fs1 : list fragment) (k : kind) (v : string) (fs2 : list fragment),
    fs = fs1 ++ (k, v) :: fs2
    /\ chain fs1 this = (Normal tt, this')
    /\ call k v this' = (Throw e, this').
Proof.
  revert this. induction fs as [|[k v] fs IH]; intros this H; [discriminate|].
  rewrite chain_cons in H.
  destruct (call k v this) as [[[]|e1] this1] eqn:Hcall.
  - apply IH in H as (fs1 & k2 & v2 & fs2 & -> & Hchain & Hthrow).
    exists ((k, v) :: fs1), k2, v2, fs2. split; [done|].
    split; [|done]. by rewrite chain_cons, Hcall.
  - injection H as <- <-.
    pose proof (call_throw_inv _ _ _ _ _ Hcall) as [-> _].
    by exists [], k, v, fs.
Qed.

Lemma chain_stops_at_first_throw_witness :
  exists (fs1 : list fragment) (k : kind) (v : string) (fs2 : list fragment),
    [(Class, "a"); (Id, "x"); (Attr, "b")] = fs1 ++ (k, v) :: fs2
    /\ chain fs1 (SelectoCss.constructor "")
       = (Normal tt, SelectoCss.push_elementClasses "a" (SelectoCss.constructor ""))
    /\ call k v (SelectoCss.push_elementClasses "a" (SelectoCss.constructor ""))
       = (Throw (Error SelectoCss.msg_order),
          SelectoCss.push_elementClasses "a" (SelectoCss.constructor "")).
Proof.
  apply (chain_stops_at_first_throw [(Class, "a"); (Id, "x"); (Attr, "b")]).
  reflexivity.
Defined.

Lemma prefix_store (k k' : kind) (v : string) (this : SelectoCss.t) :
  items k' this `prefix_of` items k' (store k v this).
Proof.
  destruct k, k'; simpl; try reflexivity; by apply prefix_app_r.
Qed.

Lemma truthy_field_store (k k' : kind) (v : string) (this : SelectoCss.t) :
  already_set k this = false ->
  truthy (field k' this) = true ->
  field k' (store k v this) = field k' this.
Proof.
  unfold already_set. intros Hset Hfield.
  destruct k, k'; simpl in *; try reflexivity; congruence.
Qed.

(** X6: nothing that is stored is lost. Whatever calls are chained on a
    builder and whether the chain returns or throws, each array still starts
    with the entries it had, in their order, a tag, id or pseudo-element that
    was a non-empty string is unchanged, and so is [mean]. *)
Theorem chain_keeps_what_is_stored
    (fs : list fragment) (this this' : SelectoCss.t) (r : completion unit) :
  chain fs this = (r, this') ->
  SelectoCss.mean this' = SelectoCss.mean this
  /\ forall k,
       items k this `prefix_of` items k this'
       /\ (field k this ≠ "" -> field k this' = field k this).
Proof.
  revert this. induction fs as [|[k v] fs IH]; intros this H.
  - injection H as <- <-. split; [done|]. intros k. split; [reflexivity|done].
  - rewrite chain_cons, call_unfold in H.
    destruct (already_set k this) eqn:Hset;
      [injection H as <- <-; split; [done|]; intros k0; split; [reflexivity|done]|].
    destruct (later_present k this);
      [injection H as <- <-; split; [done|]; intros k0; split; [reflexivity|done]|].
    apply IH in H as [Hmean Hkeep]. split; [by rewrite Hmean, mean_store|].
    intros k0. destruct (Hkeep k0) as [Hpre Hfield]. split.
    + etrans; [apply (prefix_store k k0 v)|done].
    + intros Hne. pose proof Hne as Htruthy. apply truthy_true in Htruthy.
      pose proof (truthy_field_store k k0 v this Hset Htruthy) as Heq.
      rewrite Hfield; [done|]. by rewrite Heq.
Qed.

Lemma chain_keeps_what_is_stored_witness :
  items Class (SelectoCss.push_elementClasses "a" (SelectoCss.constructor ""))
    `prefix_of`
    items Class
      (chain [(Class, "b"); (Id, "x"); (Attr, "c")]
         (SelectoCss.push_elementClasses "a" (SelectoCss.constructor ""))).2.
Proof.
  destruct (chain_keeps_what_is_stored [(Class, "b"); (Id, "x"); (Attr, "c")]
              (SelectoCss.push_elementClasses "a" (SelectoCss.constructor ""))
              (chain [(Class, "b"); (Id, "x"); (Attr, "c")]
                 (SelectoCss.push_elementClasses "a" (SelectoCss.constructor ""))).2
              (Throw (Error SelectoCss.msg_order)) eq_refl) as [_ Hkeep].
  exact (proj1 (Hkeep Class)).
Defined.

Lemma rank_inj (k1 k2 : kind) : rank k1 = rank k2 -> k1 = k2.
Proof. destruct k1, k2; simpl; intros H; try reflexivity; lia. Qed.

Lemma present_store (k : kind) (v : string) (this : SelectoCss.t) :
  truthy v = true ->
  head_truthy k this = true ->
  present k (store k v this) = true.
Proof.
  unfold present, head_truthy. intros Hv Hhead.
  destruct k; simpl in *; rewrite ?Hv, ?(truthy_at_push _ _ Hhead Hv); reflexivity.
Qed.

Lemma head_truthy_of_heads (k : kind) (this : SelectoCss.t) :
  heads_truthy this = true -> head_truthy k this = true.
Proof.
  unfold heads_truthy. rewrite !andb_true_iff. intros [[? ?] ?].
  by destruct k.
Qed.

Lemma head_truthy_push (l : list string) (v : string) :
  match l with [] => true | x :: _ => truthy x end = true ->
  truthy v = true ->
  match l ++ [v] with [] => true | x :: _ => truthy x end = true.
Proof. by destruct l. Qed.

Lemma heads_truthy_store (k : kind) (v : string) (this : SelectoCss.t) :
  truthy v = true ->
  heads_truthy this = true ->
  heads_truthy (store k v this) = true.
Proof.
  unfold heads_truthy, head_truthy. rewrite !andb_true_iff.
  intros Hv [[Hc Ha] Hp].
  destruct k; simpl in *; repeat split; auto using head_truthy_push.
Qed.

(** With truthy values only, what a builder accepts after a fragment of kind
    [k0] is in order after [k0]. *)
Lemma accepted_after (fs : list fragment) :
  forall (k0 : kind) (v0 : string) (this this' : SelectoCss.t),
    present k0 this = true ->
    heads_truthy this = true ->
    all_values_truthy fs = true ->
    chain fs this = (Normal tt, this') ->
    ordered_once ((k0, v0) :: fs) = true.
Proof.
  induction fs as [|[k v] fs IH]; intros k0 v0 this this' Hpres Hheads Hvals H;
    [reflexivity|].
  apply chain_normal_inv in H as (Hset & Hlater & H).
  cbn [all_values_truthy forallb] in Hvals. apply andb_true_iff in Hvals as [Hv Hvals].
  simpl in Hv.
  cbn [ordered_once]. apply andb_true_iff. split.
  - destruct (decide (rank k < rank k0)) as [Hlt|Hge].
    { by rewrite (later_present_of_present k k0 this Hlt Hpres) in Hlater. }
    cbn [fst]. destruct (singleton k) eqn:Hk.
    + apply Nat.ltb_lt. destruct (decide (rank k = rank k0)) as [Heq|]; [|lia].
      apply rank_inj in Heq as ->. exfalso.
      unfold already_set in Hset. rewrite Hk in Hset. simpl in Hset.
      unfold present in Hpres. rewrite Hset in Hpres.
      destruct k0; try discriminate; simpl in Hpres; discriminate.
    + apply Nat.leb_le. lia.
  - apply (IH k v (store k v this) this'); [|by apply heads_truthy_store|done..].
    apply present_store; [done|by apply head_truthy_of_heads].
Qed.

(** X7: what the builder accepts. For fragments whose values are all non-empty
    strings, the chain of calls on a new builder returns exactly when the kinds
    are in non-decreasing order (tag, id, class, attribute, pseudo-class,
    pseudo-element) with each of tag, id and pseudo-element at most once. *)
Theorem accepted_iff_ordered_once (fs : list fragment) :
  all_values_truthy fs = true ->
  (exists this, chain fs (SelectoCss.constructor "") = (Normal tt, this))
  <-> ordered_once fs = true.
Proof.
  intros Hvals. split; [|apply ordered_chain_returns].
  intros [this H]. destruct fs as [|[k v] fs]; [reflexivity|].
  apply chain_normal_inv in H as (_ & _ & H).
  cbn [all_values_truthy forallb] in Hvals. apply andb_true_iff in Hvals as [Hv Hvals].
  simpl in Hv.
  apply (accepted_after fs k v (store k v (SelectoCss.constructor "")) this);
    [|by apply heads_truthy_store|done..].
  apply present_store; [done|by destruct k].
Qed.

Lemma accepted_iff_ordered_once_witness :
  (exists this,
     chain [(Tag, "div"); (Id, "main"); (Class, "a"); (Class, "b"); (PseudoElement, "after")]
       (SelectoCss.constructor "") = (Normal tt, this))
  <-> ordered_once
        [(Tag, "div"); (Id, "main"); (Class, "a"); (Class, "b"); (PseudoElement, "after")]
      = true.
Proof.
  apply accepted_iff_ordered_once. reflexivity.
Defined.

(** ** Rendering, call by call *)

Lemma part_store_other (k k' : kind) (v : string) (this : SelectoCss.t) :
  k' ≠ k -> part k' (store k v this) = part k' this.
Proof. intros Hne. destruct k, k'; try reflexivity; congruence. Qed.

Lemma part_later_absent (k k' : kind) (this : SelectoCss.t) :
  later_present k this = false ->
  rank k < rank k' ->
  part k' this = "".
Proof.
  intros Hlater Hrank.
  destruct k, k'; simpl in Hrank; try lia; simpl in *;
    repeat match goal with
      | H : _ || _ = false |- _ => apply orb_false_elim in H as [? ?]
      end;
    repeat match goal with
      | H : _ = false |- _ => rewrite H; clear H
      end; reflexivity.
Qed.

Lemma concat_strings_snoc (f : string -> string) (l : list string) (v : string) :
  concat_strings (f <$> (l ++ [v])) = concat_strings (f <$> l) +:+ f v.
Proof.
  rewrite fmap_app, concat_strings_app. simpl. by rewrite append_empty_r.
Qed.

Lemma part_store_same (k : kind) (v : string) (this : SelectoCss.t) :
  already_set k this = false ->
  truthy v = true ->
  head_truthy k this = true ->
  part k (store k v this) = part k this +:+ spec_fragment (k, v).
Proof.
  intros Hset Hv Hhead. destruct (singleton k) eqn:Hk.
  - unfold already_set in Hset. rewrite Hk in Hset. simpl in Hset.
    rewrite !part_singleton, field_store, decide_True, Hset, Hv by done.
    reflexivity.
  - unfold head_truthy in Hhead.
    rewrite !part_repeatable, items_store, decide_True by done.
    rewrite (truthy_at_push _ _ Hhead Hv), concat_strings_snoc.
    destruct (items k this) as [|x l]; [reflexivity|].
    simpl in Hhead. simpl. by rewrite Hhead.
Qed.

(** X8: rendering follows the calls. When a builder method returns for a
    non-empty value, on a builder whose array of that kind is empty or starts
    with a non-empty string, [stringify()] afterwards is [stringify()] before
    followed by the new fragment with its prefix. *)
Theorem stringify_after_call
    (k : kind) (v : string) (this this1 : SelectoCss.t) :
  v ≠ "" ->
  head_truthy k this = true ->
  call k v this = (Normal tt, this1) ->
  SelectoCss.stringify this1 = SelectoCss.stringify this +:+ spec_fragment (k, v).
Proof.
  intros Hv Hhead H. apply truthy_true in Hv.
  apply call_normal_inv in H as (Hset & Hlater & ->).
  pose proof (part_store_same k v this Hset Hv Hhead) as Hsame.
  pose proof (part_later_absent k Id this Hlater) as HId.
  pose proof (part_later_absent k Class this Hlater) as HClass.
  pose proof (part_later_absent k Attr this Hlater) as HAttr.
  pose proof (part_later_absent k PseudoClass this Hlater) as HPseudoClass.
  pose proof (part_later_absent k PseudoElement this Hlater) as HPseudoElement.
  rewrite !stringify_parts.
  destruct k; simpl rank in *;
    rewrite Hsame;
    rewrite ?(part_store_other _ Tag), ?(part_store_other _ Id),
      ?(part_store_other _ Class), ?(part_store_other _ Attr),
      ?(part_store_other _ PseudoClass), ?(part_store_other _ PseudoElement)
      by discriminate;
    rewrite ?HId, ?HClass, ?HAttr, ?HPseudoClass, ?HPseudoElement by lia;
    rewrite ?append_empty_r, ?append_assoc, ?append_empty_l; reflexivity.
Qed.

Lemma stringify_after_call_witness :
  SelectoCss.stringify
    (SelectoCss.push_elementAttr "href"
       (SelectoCss.push_elementClasses "big"
          (SelectoCss.set_elementTag "a" (SelectoCss.constructor ""))))
  = SelectoCss.stringify
      (SelectoCss.push_elementClasses "big"
         (SelectoCss.set_elementTag "a" (SelectoCss.constructor "")))
    +:+ spec_fragment (Attr, "href").
Proof.
  apply (stringify_after_call Attr "href"
           (SelectoCss.push_elementClasses "big"
              (SelectoCss.set_elementTag "a" (SelectoCss.constructor ""))));
    [discriminate|reflexivity|reflexivity].
Defined.

(** * Further properties of the facade and of combined selectors *)

Lemma call_on_new (k : kind) (v : string) :
  call k v (SelectoCss.constructor "")
  = (Normal tt, store k v (SelectoCss.constructor "")).
Proof. by destruct k. Qed.

(** X9: an entry point of the facade never throws and shares nothing. For
    every kind, value and heap, [cssSelectorBuilder.k(value)] returns a
    reference that was not in use, to a builder that holds that one fragment
    and nothing else; every object that was there is unchanged. *)
Theorem create_returns_fresh_builder (k : kind) (value : string) (h : heap) :
  exists (l : loc) (h' : heap),
    cssSelectorBuilder.create k value h = (Normal l, h')
    /\ h !! l = None
    /\ h' !! l = Some (OSelectoCss (store k value (SelectoCss.constructor "")))
    /\ forall l', l' ≠ l -> h' !! l' = h !! l'.
Proof.
  exists (fresh (dom h)),
    (<[fresh (dom h) := OSelectoCss (store k value (SelectoCss.constructor ""))]> h).
  split.
  - rewrite create_unfold. unfold_prog. unfold alloc, invoke.
    rewrite lookup_insert_eq, call_on_new. by rewrite insert_insert_eq.
  - split; [apply (alloc_fresh (OSelectoCss (SelectoCss.constructor "")))|].
    split; [apply lookup_insert_eq|].
    intros l' Hne. by rewrite lookup_insert_ne.
Qed.

(** X11: [combine] reads its operands and changes neither. For two operands
    that are in the heap, [combine] returns, with a reference that was not in
    use; every object that was there, the operands among them, is unchanged. *)
Theorem combine_changes_no_operand
    (selector1 selector2 : loc) (token : string) (h : heap) :
  is_Some (h !! selector1) ->
  is_Some (h !! selector2) ->
  exists (lc : loc) (h1 : heap),
    cssSelectorBuilder.combine selector1 token selector2 h = (Normal lc, h1)
    /\ h !! lc = None
    /\ forall l, l ≠ lc -> h1 !! l = h !! l.
Proof.
  intros [o1 H1] [o2 H2].
  assert (exists s1, invoke_stringify selector1 h = (Normal s1, h)) as [s1 Hs1].
  { unfold invoke_stringify. rewrite H1. destruct o1; by eexists. }
  assert (exists s2, invoke_stringify selector2 h = (Normal s2, h)) as [s2 Hs2].
  { unfold invoke_stringify. rewrite H2. destruct o2; by eexists. }
  do 2 eexists. split; [by apply combine_unfold|].
  split; [apply (alloc_fresh (OCombined (Combined.mk s1 s2 token)))|].
  intros l Hne. by rewrite lookup_insert_ne.
Qed.

Lemma combine_changes_no_operand_witness :
  exists (lc : loc) (h1 : heap),
    cssSelectorBuilder.combine 1%positive ">" 2%positive two_selectors = (Normal lc, h1)
    /\ two_selectors !! lc = None
    /\ forall l, l ≠ lc -> h1 !! l = two_selectors !! l.
Proof.
  apply combine_changes_no_operand; vm_compute; eauto.
Defined.

Lemma invoke_stringify_insert_fresh (l l' : loc) (o : object) (s : string) (h : heap) :
  h !! l' = None ->
  invoke_stringify l h = (Normal s, h) ->
  invoke_stringify l (<[l' := o]> h) = (Normal s, <[l' := o]> h).
Proof.
  unfold invoke_stringify. intros Hfresh H.
  destruct (h !! l) as [o0|] eqn:Hl; [|discriminate].
  rewrite lookup_insert_ne, Hl by congruence.
  destruct o0; injection H as ->; reflexivity.
Qed.

Lemma combine_run (selector1 selector2 : loc) (token s1 s2 : string) (h : heap) :
  invoke_stringify selector1 h = (Normal s1, h) ->
  invoke_stringify selector2 h = (Normal s2, h) ->
  exists (lc : loc) (h1 : heap),
    cssSelectorBuilder.combine selector1 token selector2 h = (Normal lc, h1)
    /\ invoke_stringify lc h1 = (Normal (s1 +:+ " " +:+ token +:+ " " +:+ s2), h1)
    /\ forall l s, invoke_stringify l h = (Normal s, h) ->
                   invoke_stringify l h1 = (Normal s, h1).
Proof.
  intros H1 H2. do 2 eexists. split; [by apply combine_unfold|]. split.
  - apply (invoke_stringify_combined _ _ (Combined.mk s1 s2 token)).
    apply lookup_insert_eq.
  - intros l s. apply invoke_stringify_insert_fresh.
    apply (alloc_fresh (OCombined (Combined.mk s1 s2 token))).
Qed.

(** X12: nesting on the left and nesting on the right render the same string.
    For three selectors that render to [sa], [sb] and [sc],
    [combine(combine(a, t1, b), t2, c)] and [combine(a, t1, combine(b, t2, c))]
    both render to [sa + ' ' + t1 + ' ' + sb + ' ' + t2 + ' ' + sc]. *)
Theorem nested_combine_either_side
    (a b c : loc) (t1 t2 sa sb sc : string) (h : heap) :
  invoke_stringify a h = (Normal sa, h) ->
  invoke_stringify b h = (Normal sb, h) ->
  invoke_stringify c h = (Normal sc, h) ->
  ((inner ← cssSelectorBuilder.combine a t1 b;
    outer ← cssSelectorBuilder.combine inner t2 c;
    invoke_stringify outer) h).1
  = Normal (sa +:+ " " +:+ t1 +:+ " " +:+ sb +:+ " " +:+ t2 +:+ " " +:+ sc)
  /\ ((inner ← cssSelectorBuilder.combine b t2 c;
       outer ← cssSelectorBuilder.combine a t1 inner;
       invoke_stringify outer) h).1
     = Normal (sa +:+ " " +:+ t1 +:+ " " +:+ sb +:+ " " +:+ t2 +:+ " " +:+ sc).
Proof.
  intros Ha Hb Hc. split.
  - destruct (combine_run a b t1 sa sb h Ha Hb) as (l1 & h1 & Hab & Hs1 & Hkeep1).
    destruct (combine_run l1 c t2 _ sc h1 Hs1 (Hkeep1 c sc Hc))
      as (l2 & h2 & Habc & Hs2 & _).
    unfold_prog. rewrite Hab, Habc, Hs2. simpl.
    by rewrite !append_assoc.
  - destruct (combine_run b c t2 sb sc h Hb Hc) as (l1 & h1 & Hbc & Hs1 & Hkeep1).
    destruct (combine_run a l1 t1 sa _ h1 (Hkeep1 a sa Ha) Hs1)
      as (l2 & h2 & Habc & Hs2 & _).
    unfold_prog. rewrite Hbc, Habc, Hs2. reflexivity.
Qed.

Lemma nested_combine_either_side_witness :
  ((inner ← cssSelectorBuilder.combine 1%positive "+" 2%positive;
    outer ← cssSelectorBuilder.combine inner "~" 1%positive;
    invoke_stringify outer) two_selectors).1
  = Normal ("div" +:+ " " +:+ "+" +:+ " " +:+ "span" +:+ " " +:+ "~" +:+ " " +:+ "div")
  /\ ((inner ← cssSelectorBuilder.combine 2%positive "~" 1%positive;
       outer ← cssSelectorBuilder.combine 1%positive "+" inner;
       invoke_stringify outer) two_selectors).1
     = Normal ("div" +:+ " " +:+ "+" +:+ " " +:+ "span" +:+ " " +:+ "~" +:+ " " +:+ "div").
Proof.
  apply (nested_combine_either_side 1%positive 2%positive 1%positive "+" "~"
           "div" "span" "div" two_selectors); vm_compute; reflexivity.
Defined.

(** * Further properties of fromJSON *)

(** X13: [fromJSON] goes by position, not by name. When the text parses to an
    object none of whose keys is an array index, the [Rectangle] that
    [fromJSON] builds has the first value of the text as [width] and the second
    as [height], whatever the keys are called; a value that is missing is
    [undefined] and values after the second are dropped. *)
Theorem fromJSON_rectangle_by_position
    (json : string) (props : list (string * value)) :
  JSON.parse json = Some (Normal (Object props)) ->
  Forall (fun p => array_index p.1 = None) props ->
  fromJSON Rectangle.prototype json
  = Some (Normal (Rectangle.mk (default Undefined (props.*2 !! 0))
                               (default Undefined (props.*2 !! 1)))).
Proof.
  intros Hparse Hprops. unfold fromJSON. rewrite Hparse.
  cbn [Object_values]. by rewrite index_props_none, named_props_all.
Qed.

Lemma fromJSON_rectangle_by_position_witness :
  fromJSON Rectangle.prototype
    ("{" +:+ dquote +:+ "height" +:+ dquote +:+ ":10,"
         +:+ dquote +:+ "width" +:+ dquote +:+ ":20,"
         +:+ dquote +:+ "depth" +:+ dquote +:+ ":30}")
  = Some (Normal (Rectangle.mk (Number 10) (Number 20))).
Proof.
  apply (fromJSON_rectangle_by_position _
           [("height", Number 10); ("width", Number 20); ("depth", Number 30)]).
  - vm_compute. reflexivity.
  - repeat constructor.
Defined.

(** * getJSON and fromJSON: texts that come back *)

(** ** Characters and strings *)

Lemma chars_app (s1 s2 : string) :
  list_ascii_of_string (s1 +:+ s2) = list_ascii_of_string s1 ++ list_ascii_of_string s2.
Proof.
  induction s1 as [|c s1 IH]; [reflexivity|].
  change (String c s1 +:+ s2) with (String c (s1 +:+ s2)). simpl. by rewrite IH.
Qed.

Lemma string_rev_app (s1 s2 : string) :
  String.rev_app s1 s2 = String.rev s1 +:+ s2.
Proof.
  unfold String.rev. revert s2. induction s1 as [|c s1 IH]; intros s2; [reflexivity|].
  simpl. rewrite (IH (String c s2)), (IH (String c "")), append_assoc. reflexivity.
Qed.

Lemma string_rev_cons (c : ascii) (s : string) :
  String.rev (String c s) = String.rev s +:+ String c "".
Proof. unfold String.rev at 1. simpl. apply string_rev_app. Qed.

Lemma plain_char_tests (c : ascii) :
  plain_char c = true ->
  Ascii.eqb c JSON.dq = false /\ Ascii.eqb c JSON.backslash = false
  /\ (nat_of_ascii c <? 32) = false /\ (127 <? nat_of_ascii c) = false.
Proof.
  unfold plain_char. cbv zeta. rewrite !andb_true_iff, !negb_true_iff.
  intros [[[H32 H127] H34] H92].
  apply Nat.leb_le in H32, H127. apply Nat.eqb_neq in H34, H92.
  repeat split.
  - apply Ascii.eqb_neq. intros ->. by apply H34.
  - apply Ascii.eqb_neq. intros ->. by apply H92.
  - apply Nat.ltb_ge. lia.
  - apply Nat.ltb_ge. lia.
Qed.

(** The characters of a plain string, up to the closing quote. *)
Lemma parse_chars_plain (cs : list ascii) :
  forallb plain_char cs = true ->
  forall (acc : string) (rest : list ascii),
    JSON.parse_chars (cs ++ JSON.dq :: rest) acc
    = JSON.Parsed (String.rev acc +:+ string_of_list_ascii cs) rest.
Proof.
  induction cs as [|c cs IH]; intros Hplain acc rest.
  - cbn [app JSON.parse_chars string_of_list_ascii].
    rewrite Ascii.eqb_refl. by rewrite append_empty_r.
  - cbn [forallb] in Hplain. apply andb_true_iff in Hplain as [Hc Hcs].
    destruct (plain_char_tests c Hc) as (H1 & H2 & H3 & H4).
    cbn [app JSON.parse_chars]. rewrite H1, H2, H3, H4, (IH Hcs).
    rewrite string_rev_cons, append_assoc. reflexivity.
Qed.

Lemma quote_chars (s q : string) :
  quote s = Some q ->
  plain s = true
  /\ list_ascii_of_string q = JSON.dq :: list_ascii_of_string s ++ [JSON.dq].
Proof.
  unfold quote. destruct (plain s) eqn:Hplain; [|discriminate].
  intros [= <-]. split; [done|]. by rewrite !chars_app.
Qed.

(** ** Numbers *)

Lemma digit_of_digit_char (d : Z) :
  (0 <= d < 10)%Z -> JSON.digit (digit_char d) = Some d.
Proof.
  intros Hd.
  assert (d = 0 \/ d = 1 \/ d = 2 \/ d = 3 \/ d = 4 \/ d = 5 \/ d = 6 \/ d = 7
          \/ d = 8 \/ d = 9)%Z as Hcases by lia.
  repeat destruct Hcases as [->|Hcases]; try subst d; reflexivity.
Qed.

Lemma parse_digits_delimited (rest : list ascii) (a : Z) :
  delimited rest = true -> JSON.parse_digits rest a = (a, rest).
Proof.
  destruct rest as [|c rest]; [reflexivity|]. simpl.
  rewrite !orb_true_iff, !Ascii.eqb_eq. intros [[->| ->]| ->]; reflexivity.
Qed.

Lemma starts_fraction_delimited (rest : list ascii) :
  delimited rest = true -> JSON.starts_fraction_or_exponent rest = false.
Proof.
  destruct rest as [|c rest]; [reflexivity|]. simpl.
  rewrite !orb_true_iff, !Ascii.eqb_eq. intros [[->| ->]| ->]; reflexivity.
Qed.

(** The digits that [digits_go] writes read back as the number. *)
Lemma digits_go_S (fuel : nat) (n : Z) (acc : list ascii) :
  digits_go (S fuel) n acc =
    if (n <? 10)%Z then digit_char (n mod 10) :: acc
    else digits_go fuel (n / 10)%Z (digit_char (n mod 10) :: acc).
Proof. reflexivity. Qed.

Lemma digits_go_spec (fuel : nat) :
  forall (n : Z) (acc : list ascii),
    (0 <= n < 10 ^ Z.of_nat (S fuel))%Z ->
    exists (d : Z) (ds : list ascii),
      digits_go (S fuel) n acc = digit_char d :: ds ++ acc
      /\ (0 <= d < 10)%Z
      /\ (0 < n -> 0 < d)%Z
      /\ forall (rest : list ascii) (a : Z),
           JSON.parse_digits (ds ++ rest) (10 * a + d)
           = JSON.parse_digits rest (a * 10 ^ Z.of_nat (S (length ds)) + n).
Proof.
  induction fuel as [|fuel IH]; intros n acc Hn;
    rewrite digits_go_S; destruct (n <? 10)%Z eqn:Hlt.
  - apply Z.ltb_lt in Hlt. exists n, [].
    rewrite Z.mod_small by lia. split; [done|]. split; [lia|]. split; [done|].
    intros rest a. simpl. f_equal. lia.
  - apply Z.ltb_ge in Hlt. simpl in Hn. lia.
  - apply Z.ltb_lt in Hlt. exists n, [].
    rewrite Z.mod_small by lia. split; [done|]. split; [lia|]. split; [done|].
    intros rest a. simpl. f_equal. lia.
  - apply Z.ltb_ge in Hlt.
    assert (0 <= n / 10 < 10 ^ Z.of_nat (S fuel))%Z as Hdiv.
    { split; [apply Z.div_pos; lia|].
      apply Z.div_lt_upper_bound; [lia|].
      rewrite (Nat2Z.inj_succ (S fuel)), Z.pow_succ_r in Hn by lia. lia. }
    destruct (IH (n / 10)%Z (digit_char (n mod 10) :: acc) Hdiv)
      as (d & ds & Heq & Hd & Hpos & Hparse).
    exists d, (ds ++ [digit_char (n mod 10)]).
    split; [by rewrite Heq, <- app_assoc|]. split; [done|].
    split.
    { intros _. apply Hpos. apply Z.div_str_pos. lia. }
    intros rest a. rewrite <- app_assoc. cbn [app].
    rewrite Hparse. cbn [JSON.parse_digits].
    rewrite digit_of_digit_char by (apply Z.mod_pos_bound; lia).
    f_equal. rewrite length_app. cbn [length].
    replace (Z.of_nat (S (length ds + 1))) with (Z.succ (Z.of_nat (S (length ds)))) by lia.
    rewrite Z.pow_succ_r by lia.
    pose proof (Z.div_mod n 10 ltac:(lia)) as Hdm. lia.
Qed.

Lemma digits_spec (n : Z) :
  (0 <= n <= 2 ^ 53)%Z ->
  exists (d : Z) (ds : list ascii),
    digits n = digit_char d :: ds
    /\ (0 <= d < 10)%Z
    /\ (0 < n -> 0 < d)%Z
    /\ forall rest : list ascii,
         delimited rest = true -> JSON.parse_digits (ds ++ rest) d = (n, rest).
Proof.
  intros Hn. unfold digits.
  destruct (digits_go_spec 15 n []) as (d & ds & Heq & Hd & Hpos & Hparse).
  { change (10 ^ Z.of_nat 16)%Z with 10000000000000000%Z.
    change (2 ^ 53)%Z with 9007199254740992%Z in Hn. lia. }
  exists d, ds. rewrite Heq, app_nil_r. split; [done|]. split; [done|]. split; [done|].
  intros rest Hrest. specialize (Hparse rest 0%Z).
  rewrite Z.mul_0_r, Z.add_0_l, Z.mul_0_l, Z.add_0_l in Hparse.
  by rewrite Hparse, parse_digits_delimited.
Qed.

Lemma safe_integer_bounds (z : Z) :
  safe_integer z = true <-> (- 2 ^ 53 <= z <= 2 ^ 53)%Z.
Proof.
  unfold safe_integer. rewrite andb_true_iff, !Z.leb_le. tauto.
Qed.

(** A positive integer reads back from its digits, with or without a sign
    before them. *)
Lemma parse_int_digits (negative : bool) (n : Z) (rest : list ascii) :
  (0 < n <= 2 ^ 53)%Z ->
  delimited rest = true ->
  JSON.parse_int negative (digits n ++ rest)
  = JSON.Parsed (Number (if negative then - n else n)) rest.
Proof.
  intros Hn Hrest.
  destruct (digits_spec n ltac:(lia)) as (d & ds & -> & Hd & Hpos & Hparse).
  unfold JSON.parse_int. cbn [app].
  rewrite digit_of_digit_char by done.
  assert ((d =? 0)%Z = false) as -> by (apply Z.eqb_neq; lia).
  rewrite (Hparse rest Hrest), (starts_fraction_delimited rest Hrest).
  assert ((n =? 0)%Z = false) as -> by (apply Z.eqb_neq; lia).
  rewrite andb_false_r.
  assert (safe_integer n = true) as -> by (apply safe_integer_bounds; lia).
  reflexivity.
Qed.

Lemma parse_int_zero (rest : list ascii) :
  delimited rest = true ->
  JSON.parse_int false (digits 0 ++ rest) = JSON.Parsed (Number 0) rest.
Proof.
  intros Hrest. change (digits 0) with ["0"%char].
  unfold JSON.parse_int. cbn [app].
  change (JSON.digit "0") with (Some 0%Z). cbn [Z.eqb].
  by rewrite (starts_fraction_delimited rest Hrest).
Qed.

Lemma parse_value_digit (fuel : nat) (d : Z) (cs : list ascii) :
  (0 <= d < 10)%Z ->
  JSON.parse_value (S fuel) (digit_char d :: cs) = JSON.parse_int false (digit_char d :: cs)
  /\ opens_value (digit_char d) = true.
Proof.
  intros Hd.
  assert (d = 0 \/ d = 1 \/ d = 2 \/ d = 3 \/ d = 4 \/ d = 5 \/ d = 6 \/ d = 7
          \/ d = 8 \/ d = 9)%Z as Hcases by lia.
  repeat destruct Hcases as [->|Hcases]; try subst d; split; reflexivity.
Qed.

Lemma parse_value_minus (fuel : nat) (cs : list ascii) :
  JSON.parse_value (S fuel) ("-"%char :: cs) = JSON.parse_int true cs.
Proof. reflexivity. Qed.

(** The text of a number reads back as the number. *)
Lemma number_text_parses (z : Z) (t : string) :
  number_text z = Rendered t ->
  (exists c cs, list_ascii_of_string t = c :: cs /\ opens_value c = true)
  /\ forall (fuel : nat) (rest : list ascii),
       delimited rest = true ->
       JSON.parse_value (S fuel) (list_ascii_of_string t ++ rest)
       = JSON.Parsed (Number z) rest.
Proof.
  unfold number_text. destruct (safe_integer z) eqn:Hsafe; [|discriminate].
  apply safe_integer_bounds in Hsafe. intros [= <-].
  rewrite list_ascii_of_string_of_list_ascii.
  destruct (z <? 0)%Z eqn:Hneg.
  - apply Z.ltb_lt in Hneg. split; [by eexists _, _|].
    intros fuel rest Hrest. cbn [app].
    rewrite parse_value_minus, parse_int_digits by (done || lia).
    by rewrite Z.opp_involutive.
  - apply Z.ltb_ge in Hneg.
    destruct (digits_spec z ltac:(lia)) as (d & ds & Heq & Hd & _ & _).
    split.
    { exists (digit_char d), ds. split; [done|]. by apply (parse_value_digit 0 d []). }
    intros fuel rest Hrest. rewrite Heq. cbn [app].
    rewrite (proj1 (parse_value_digit fuel d (ds ++ rest) Hd)).
    change (digit_char d :: ds ++ rest) with ((digit_char d :: ds) ++ rest).
    rewrite <- Heq.
    destruct (decide (z = 0%Z)) as [->|Hnz]; [by apply parse_int_zero|].
    by rewrite parse_int_digits by (done || lia).
Qed.

(** ** Values *)

Lemma reads_back_fuel (v : value) (t : string) :
  (exists c cs, list_ascii_of_string t = c :: cs /\ opens_value c = true) ->
  (forall (fuel : nat) (rest : list ascii),
     delimited rest = true ->
     JSON.parse_value (S fuel) (list_ascii_of_string t ++ rest) = JSON.Parsed v rest) ->
  reads_back v t.
Proof.
  intros Hstart Hparse. split; [done|]. intros fuel rest Hlen Hrest.
  destruct Hstart as (c & cs & Heq & _). rewrite Heq in Hlen. simpl in Hlen.
  destruct fuel as [|fuel]; [lia|]. by apply Hparse.
Qed.

Lemma reads_back_number (z : Z) (t : string) :
  number_text z = Rendered t -> reads_back (Number z) t.
Proof.
  intros H. destruct (number_text_parses z t H) as [Hstart Hparse].
  by apply reads_back_fuel.
Qed.

Lemma reads_back_null : reads_back Null "null".
Proof. apply reads_back_fuel; [by eexists _, _|]. reflexivity. Qed.

Lemma reads_back_bool (b : bool) : reads_back (Bool b) (if b then "true" else "false").
Proof. destruct b; (apply reads_back_fuel; [by eexists _, _|]); reflexivity. Qed.

Lemma parse_value_quote (fuel : nat) (cs : list ascii) :
  JSON.parse_value (S fuel) (JSON.dq :: cs) =
    match JSON.parse_chars cs "" with
    | JSON.Parsed s rest => JSON.Parsed (Str s) rest
    | JSON.Invalid => JSON.Invalid
    | JSON.Unsupported => JSON.Unsupported
    end.
Proof. reflexivity. Qed.

Lemma reads_back_str (s q : string) :
  quote s = Some q -> reads_back (Str s) q.
Proof.
  intros H. apply quote_chars in H as [Hplain Hq].
  apply reads_back_fuel; [rewrite Hq; by eexists _, _|].
  intros fuel rest Hrest. rewrite Hq. cbn [app]. rewrite <- app_assoc. cbn [app].
  rewrite parse_value_quote, (parse_chars_plain _ Hplain).
  by rewrite string_of_list_ascii_of_string.
Qed.

Lemma opens_value_tests (c : ascii) (cs : list ascii) :
  opens_value c = true ->
  JSON.skip_ws (c :: cs) = c :: cs
  /\ Ascii.eqb c "]" = false /\ Ascii.eqb c "}" = false /\ Ascii.eqb c "," = false.
Proof.
  unfold opens_value. rewrite !andb_true_iff, !negb_true_iff.
  intros [[[Hws H1] H2] H3]. cbn [JSON.skip_ws]. by rewrite Hws.
Qed.

Lemma concat_cons (sep x y : string) (l : list string) :
  String.concat sep (x :: y :: l) = x +:+ sep +:+ String.concat sep (y :: l).
Proof. reflexivity. Qed.

Lemma parse_elements_S (fuel : nat) (cs : list ascii) (acc : list value) :
  JSON.parse_elements (S fuel) cs acc =
    match JSON.parse_value fuel cs with
    | JSON.Parsed v cs1 =>
        match JSON.skip_ws cs1 with
        | c2 :: cs2 =>
            if Ascii.eqb c2 "," then JSON.parse_elements fuel cs2 (acc ++ [v])
            else if Ascii.eqb c2 "]" then JSON.Parsed (Array (acc ++ [v])) cs2
            else JSON.Invalid
        | [] => JSON.Invalid
        end
    | JSON.Invalid => JSON.Invalid
    | JSON.Unsupported => JSON.Unsupported
    end.
Proof. reflexivity. Qed.

Lemma reads_back_length (v : value) (t : string) :
  reads_back v t -> 1 <= length (list_ascii_of_string t).
Proof. intros [(c & cs & -> & _) _]. simpl. lia. Qed.

(** The elements of an array, after its opening bracket. *)
Lemma parse_elements_texts (vts : list (value * string)) :
  Forall (fun vt => reads_back vt.1 vt.2) vts ->
  vts ≠ [] ->
  forall (fuel : nat) (acc : list value) (rest : list ascii),
    length (list_ascii_of_string (String.concat "," vts.*2)) < fuel ->
    JSON.parse_elements fuel
      (list_ascii_of_string (String.concat "," vts.*2) ++ "]"%char :: rest) acc
    = JSON.Parsed (Array (acc ++ vts.*1)) rest.
Proof.
  induction 1 as [|[v t] vts Hvt Hvts IH]; intros Hne fuel acc rest Hlen; [done|].
  destruct fuel as [|fuel]; [lia|]. rewrite parse_elements_S.
  pose proof (reads_back_length _ _ Hvt) as Ht. cbn [fst snd] in Hvt, Ht.
  destruct vts as [|[v' t'] vts].
  - cbn [fmap list_fmap String.concat fst snd] in *.
    rewrite (proj2 Hvt fuel ("]"%char :: rest)) by (lia || done).
    reflexivity.
  - rewrite !fmap_cons in *. cbn [fst snd] in *.
    rewrite concat_cons, !chars_app, !length_app in *.
    rewrite <- !app_assoc.
    rewrite (proj2 Hvt fuel) by (lia || done).
    change (list_ascii_of_string ",") with [","%char]. cbn [app JSON.skip_ws].
    change (JSON.is_ws ",") with false. cbn iota. rewrite Ascii.eqb_refl.
    change (length (list_ascii_of_string ",")) with 1 in Hlen.
    rewrite IH by (done || lia).
    by rewrite <- app_assoc.
Qed.

Lemma parse_members_S (fuel : nat) (cs : list ascii) (acc : list (string * value)) :
  JSON.parse_members (S fuel) cs acc =
    match JSON.skip_ws cs with
    | [] => JSON.Invalid
    | c :: cs1 =>
        if Ascii.eqb c JSON.dq then
          match JSON.parse_chars cs1 "" with
          | JSON.Parsed key cs2 =>
              match JSON.skip_ws cs2 with
              | c3 :: cs3 =>
                  if Ascii.eqb c3 ":" then
                    match JSON.parse_value fuel cs3 with
                    | JSON.Parsed v cs4 =>
                        match JSON.skip_ws cs4 with
                        | c5 :: cs5 =>
                            if Ascii.eqb c5 ","
                            then JSON.parse_members fuel cs5
                                   (JSON.define_property key v acc)
                            else if Ascii.eqb c5 "}"
                            then JSON.Parsed (Object (JSON.define_property key v acc)) cs5
                            else JSON.Invalid
                        | [] => JSON.Invalid
                        end
                    | JSON.Invalid => JSON.Invalid
                    | JSON.Unsupported => JSON.Unsupported
                    end
                  else JSON.Invalid
              | [] => JSON.Invalid
              end
          | JSON.Invalid => JSON.Invalid
          | JSON.Unsupported => JSON.Unsupported
          end
        else JSON.Invalid
    end.
Proof. reflexivity. Qed.

Lemma member_text_chars (k t : string) :
  list_ascii_of_string (member_text k t)
  = JSON.dq :: list_ascii_of_string k ++ JSON.dq :: ":"%char :: list_ascii_of_string t.
Proof. unfold member_text. by rewrite !chars_app. Qed.

(** One member: the key, the colon, and on to the value. *)
Lemma parse_members_member
    (fuel : nat) (k : string) (cs3 : list ascii) (acc : list (string * value)) :
  plain k = true ->
  JSON.parse_members (S fuel)
    (JSON.dq :: list_ascii_of_string k ++ JSON.dq :: ":"%char :: cs3) acc =
    match JSON.parse_value fuel cs3 with
    | JSON.Parsed v cs4 =>
        match JSON.skip_ws cs4 with
        | c5 :: cs5 =>
            if Ascii.eqb c5 ","
            then JSON.parse_members fuel cs5 (JSON.define_property k v acc)
            else if Ascii.eqb c5 "}"
            then JSON.Parsed (Object (JSON.define_property k v acc)) cs5
            else JSON.Invalid
        | [] => JSON.Invalid
        end
    | JSON.Invalid => JSON.Invalid
    | JSON.Unsupported => JSON.Unsupported
    end.
Proof.
  intros Hplain. rewrite parse_members_S.
  cbn [JSON.skip_ws]. change (JSON.is_ws JSON.dq) with false. cbv iota.
  rewrite Ascii.eqb_refl, (parse_chars_plain _ Hplain).
  rewrite string_of_list_ascii_of_string.
  change (String.rev "" +:+ k) with k.
  reflexivity.
Qed.

Abbreviation entry := (string * value * string)%type.

(** The members of an object, after its opening brace. *)
Lemma parse_members_texts (entries : list entry) :
  Forall (fun e : entry => plain e.1.1 = true /\ reads_back e.1.2 e.2) entries ->
  entries ≠ [] ->
  forall (fuel : nat) (acc : list (string * value)) (rest : list ascii),
    length (list_ascii_of_string
              (String.concat "," ((fun e : entry => member_text e.1.1 e.2) <$> entries)))
    < fuel ->
    JSON.parse_members fuel
      (list_ascii_of_string
         (String.concat "," ((fun e : entry => member_text e.1.1 e.2) <$> entries))
       ++ "}"%char :: rest) acc
    = JSON.Parsed
        (Object (foldl (fun acc (e : entry) => JSON.define_property e.1.1 e.1.2 acc)
                   acc entries)) rest.
Proof.
  induction 1 as [|[[k v] t] entries [Hk Hvt] Hrest IH];
    intros Hne fuel acc rest Hlen; [done|].
  destruct fuel as [|fuel]; [lia|].
  cbn [fst snd] in Hk, Hvt.
  destruct entries as [|e entries].
  - cbn [fmap list_fmap String.concat fst snd foldl] in *.
    rewrite member_text_chars in *. cbn [app length] in Hlen.
    rewrite length_app in Hlen. cbn [length] in Hlen.
    cbn [app]. rewrite <- app_assoc. cbn [app].
    rewrite parse_members_member by done.
    rewrite (proj2 Hvt fuel ("}"%char :: rest)) by (lia || done).
    reflexivity.
  - rewrite !fmap_cons in *. cbn [fst snd foldl] in *.
    rewrite concat_cons, !chars_app, member_text_chars in *.
    cbn [app length] in Hlen. rewrite ?length_app in Hlen. cbn [length] in Hlen.
    rewrite ?length_app in Hlen.
    change (length (list_ascii_of_string ",")) with 1 in Hlen.
    cbn [app]. rewrite <- ?app_assoc. cbn [app]. rewrite <- ?app_assoc. cbn [app].
    rewrite parse_members_member by done.
    rewrite (proj2 Hvt fuel) by (lia || done).
    change (list_ascii_of_string ",") with [","%char]. cbn [app JSON.skip_ws].
    change (JSON.is_ws ",") with false. cbn iota. rewrite Ascii.eqb_refl.
    rewrite IH by (done || lia). reflexivity.
Qed.

Lemma define_property_fresh (k : string) (v : value) (acc : list (string * value)) :
  k ∉ acc.*1 -> JSON.define_property k v acc = acc ++ [(k, v)].
Proof.
  induction acc as [|[k0 v0] acc IH]; intros Hfresh; [reflexivity|].
  rewrite fmap_cons in Hfresh. cbn [fst] in Hfresh.
  apply not_elem_of_cons in Hfresh as [Hne Hfresh].
  cbn [JSON.define_property].
  assert (String.eqb k0 k = false) as -> by (apply String.eqb_neq; congruence).
  by rewrite IH.
Qed.

Lemma keys_distinct_cons (k : string) (ks : list string) :
  keys_distinct (k :: ks) = true -> (k ∉ ks) /\ keys_distinct ks = true.
Proof.
  cbn [keys_distinct]. rewrite andb_true_iff, negb_true_iff.
  intros [Hex Hks]. split; [|done].
  intros Hin. apply list_elem_of_In in Hin.
  assert (existsb (String.eqb k) ks = true) as Hex'; [|congruence].
  apply existsb_exists. exists k. split; [done|]. apply String.eqb_refl.
Qed.

(** Properties with distinct keys, defined one after the other on an object
    that has none of the keys, are added at its end in their order. *)
Lemma define_properties_distinct (entries : list entry) :
  forall acc : list (string * value),
    keys_distinct (entries.*1).*1 = true ->
    (forall k, k ∈ (entries.*1).*1 -> k ∉ acc.*1) ->
    foldl (fun acc (e : entry) => JSON.define_property e.1.1 e.1.2 acc) acc entries
    = acc ++ entries.*1.
Proof.
  induction entries as [|[[k v] t] entries IH]; intros acc Hdist Hfresh.
  - by rewrite app_nil_r.
  - rewrite !fmap_cons in *. cbn [fst snd foldl] in *.
    apply keys_distinct_cons in Hdist as [Hk Hdist].
    rewrite define_property_fresh by (apply Hfresh; left).
    rewrite IH; [by rewrite <- app_assoc|done|].
    intros k' Hk'. rewrite fmap_app. cbn [fmap list_fmap fst].
    rewrite elem_of_app, list_elem_of_singleton.
    intros [Hin| ->]; [|done].
    by apply (Hfresh k'); [right|].
Qed.

Lemma index_entries_named {A : Type} (ms : list (string * A)) :
  Forall (fun p => array_index p.1 = None) ms ->
  own_property_order ms = ms.
Proof.
  unfold own_property_order. intros Hms.
  assert (index_entries ms = []) as ->.
  { induction Hms as [|[k x] ms Hk _ IH]; [reflexivity|].
    cbn [index_entries fst] in *. by rewrite Hk. }
  cbn [fmap list_fmap app].
  induction Hms as [|[k x] ms Hk _ IH]; [reflexivity|].
  rewrite filter_cons, decide_True by done. by rewrite IH.
Qed.

(** Induction on values, with the elements of an array and the values of the
    properties of an object. *)
Lemma value_induction (P : value -> Prop) :
  P Undefined -> P Null -> (forall b, P (Bool b)) -> (forall z, P (Number z)) ->
  (forall s, P (Str s)) ->
  (forall elements, Forall P elements -> P (Array elements)) ->
  (forall props, Forall (fun p : string * value => P p.2) props -> P (Object props)) ->
  forall v, P v.
Proof.
  intros HU HN HB HZ HS HA HO.
  refine (fix IH (v : value) : P v :=
            match v with
            | Undefined => HU
            | Null => HN
            | Bool b => HB b
            | Number z => HZ z
            | Str s => HS s
            | Array elements =>
                HA elements
                  ((fix go (l : list value) : Forall P l :=
                      match l with
                      | [] => @List.Forall_nil _ P
                      | x :: l' => @List.Forall_cons _ P x l' (IH x) (go l')
                      end) elements)
            | Object props =>
                HO props
                  ((fix go (l : list (string * value))
                      : Forall (fun p : string * value => P p.2) l :=
                      match l with
                      | [] => @List.Forall_nil _ _
                      | p :: l' =>
                          @List.Forall_cons _ _ p l'
                            (match p return P p.2 with (k, x) => IH x end) (go l')
                      end) props)
            end).
Qed.

Lemma JSON_stringify_Array (elements : list value) :
  JSON_stringify (Array elements) = serialize_array (JSON_stringify <$> elements).
Proof.
  reflexivity.
Qed.

Lemma JSON_stringify_Object (props : list (string * value)) :
  JSON_stringify (Object props)
  = serialize_object ((fun p : string * value => (p.1, JSON_stringify p.2)) <$> props).
Proof.
  cbn [JSON_stringify]. f_equal.
  induction props as [|[k x] l IH]; [reflexivity|]. by rewrite fmap_cons, <- IH.
Qed.

Lemma json_value_Array (elements : list value) :
  json_value (Array elements) = forallb json_value elements.
Proof.
  cbn [json_value].
  induction elements as [|x l IH]; [reflexivity|]. cbn [forallb]. by rewrite <- IH.
Qed.

Lemma json_value_Object (props : list (string * value)) :
  json_value (Object props)
  = keys_distinct props.*1
    && forallb (fun p : string * value =>
                  plain p.1 && bool_decide (array_index p.1 = None) && json_value p.2)
         props.
Proof.
  cbn [json_value]. f_equal.
  induction props as [|[k x] l IH]; [reflexivity|]. cbn [forallb fst snd]. by rewrite <- IH.
Qed.

Lemma array_texts (l : list value) :
  Forall comes_back l ->
  forallb json_value l = true ->
  exists vts : list (value * string),
    vts.*1 = l
    /\ Forall (fun vt => reads_back vt.1 vt.2) vts
    /\ element_texts (JSON_stringify <$> l) = Some vts.*2.
Proof.
  induction 1 as [|x l Hx _ IH]; intros Hall.
  - by exists [].
  - cbn [forallb] in Hall. apply andb_true_iff in Hall as [Hjx Hall].
    destruct (Hx Hjx) as (t & Ht & Hback).
    destruct (IH Hall) as (vts & <- & Hvts & Htexts).
    exists ((x, t) :: vts). split; [done|]. split; [by constructor|].
    rewrite !fmap_cons. cbn [element_texts snd]. by rewrite Ht, Htexts.
Qed.

Lemma object_entries (props : list (string * value)) :
  Forall (fun p : string * value => comes_back p.2) props ->
  forallb (fun p : string * value =>
             plain p.1 && bool_decide (array_index p.1 = None) && json_value p.2)
    props = true ->
  exists entries : list entry,
    entries.*1 = props
    /\ Forall (fun e : entry => plain e.1.1 = true /\ reads_back e.1.2 e.2) entries
    /\ Forall (fun p : string * serialized => array_index p.1 = None)
         ((fun p : string * value => (p.1, JSON_stringify p.2)) <$> props)
    /\ member_texts ((fun p : string * value => (p.1, JSON_stringify p.2)) <$> props)
       = Some ((fun e : entry => member_text e.1.1 e.2) <$> entries).
Proof.
  induction 1 as [|[k x] props Hx _ IH]; intros Hall.
  - exists []. repeat split; constructor.
  - cbn [forallb fst snd] in Hall, Hx.
    rewrite !andb_true_iff in Hall. destruct Hall as [[[Hk Hidx] Hjx] Hall].
    apply bool_decide_eq_true in Hidx.
    destruct (Hx Hjx) as (t & Ht & Hback).
    destruct (IH Hall) as (entries & <- & Hentries & Hnamed & Htexts).
    exists ((k, x, t) :: entries). split; [done|].
    split; [by constructor|]. split; [by constructor|].
    rewrite !fmap_cons. cbn [member_texts fst snd].
    rewrite Ht, Htexts. unfold quote. rewrite Hk.
    unfold member_text. by rewrite !append_assoc.
Qed.

Lemma parse_value_bracket (fuel : nat) (cs : list ascii) :
  JSON.parse_value (S fuel) ("["%char :: cs) =
    match JSON.skip_ws cs with
    | c2 :: cs2 =>
        if Ascii.eqb c2 "]" then JSON.Parsed (Array []) cs2
        else JSON.parse_elements fuel (c2 :: cs2) []
    | [] => JSON.Invalid
    end.
Proof. reflexivity. Qed.

Lemma parse_value_brace (fuel : nat) (cs : list ascii) :
  JSON.parse_value (S fuel) ("{"%char :: cs) =
    match JSON.skip_ws cs with
    | c2 :: cs2 =>
        if Ascii.eqb c2 "}" then JSON.Parsed (Object []) cs2
        else JSON.parse_members fuel (c2 :: cs2) []
    | [] => JSON.Invalid
    end.
Proof. reflexivity. Qed.

Lemma concat_head (sep t : string) (ts : list string) (c : ascii) (cs : list ascii) :
  list_ascii_of_string t = c :: cs ->
  exists cs', list_ascii_of_string (String.concat sep (t :: ts)) = c :: cs'.
Proof.
  intros Ht. destruct ts as [|t' ts].
  - by exists cs.
  - rewrite concat_cons, chars_app, Ht. by eexists.
Qed.

(** An array of values that read back reads back. *)
Lemma reads_back_array (vts : list (value * string)) :
  Forall (fun vt => reads_back vt.1 vt.2) vts ->
  reads_back (Array vts.*1) ("[" +:+ String.concat "," vts.*2 +:+ "]").
Proof.
  intros Hvts. split; [by eexists _, _|].
  intros fuel rest Hlen Hrest.
  rewrite !chars_app in *. change (list_ascii_of_string "[") with ["["%char] in *.
  change (list_ascii_of_string "]") with ["]"%char] in *.
  cbn [app length] in Hlen. rewrite length_app in Hlen. cbn [length] in Hlen.
  destruct fuel as [|fuel]; [lia|].
  cbn [app]. rewrite <- app_assoc. cbn [app]. rewrite parse_value_bracket.
  destruct vts as [|[v t] vts]; [reflexivity|].
  pose proof (Forall_inv Hvts) as [(c & cs & Hc & Hopen) _]. cbn [fst snd] in Hc.
  rewrite !fmap_cons in *. cbn [fst snd] in *.
  destruct (concat_head "," t vts.*2 c cs Hc) as [cs' Hhead].
  destruct (opens_value_tests c (cs' ++ "]"%char :: rest) Hopen) as (Hskip & Hb & _).
  rewrite Hhead. cbn [app]. rewrite Hskip, Hb.
  change (c :: cs' ++ "]"%char :: rest) with ((c :: cs') ++ "]"%char :: rest).
  rewrite <- Hhead.
  change (t :: vts.*2) with (((v, t) :: vts).*2).
  rewrite (parse_elements_texts ((v, t) :: vts) Hvts)
    by (done || (change (((v, t) :: vts).*2) with (t :: vts.*2); lia)).
  reflexivity.
Qed.

(** An object of members that read back, with plain and distinct keys, reads
    back. *)
Lemma reads_back_object (entries : list entry) :
  Forall (fun e : entry => plain e.1.1 = true /\ reads_back e.1.2 e.2) entries ->
  keys_distinct (entries.*1).*1 = true ->
  reads_back (Object entries.*1)
    ("{" +:+ String.concat "," ((fun e : entry => member_text e.1.1 e.2) <$> entries)
     +:+ "}").
Proof.
  intros Hentries Hdist. split; [by eexists _, _|].
  intros fuel rest Hlen Hrest.
  rewrite !chars_app in *. change (list_ascii_of_string "{") with ["{"%char] in *.
  change (list_ascii_of_string "}") with ["}"%char] in *.
  cbn [app length] in Hlen. rewrite length_app in Hlen. cbn [length] in Hlen.
  destruct fuel as [|fuel]; [lia|].
  cbn [app]. rewrite <- app_assoc. cbn [app]. rewrite parse_value_brace.
  destruct entries as [|[[k v] t] entries]; [reflexivity|].
  set (texts := (fun e : entry => member_text e.1.1 e.2) <$> (k, v, t) :: entries) in *.
  assert (exists cs', list_ascii_of_string (String.concat "," texts) = JSON.dq :: cs')
    as [cs' Hhead].
  { subst texts. rewrite fmap_cons. cbn [fst snd].
    eapply concat_head. apply member_text_chars. }
  rewrite Hhead. cbn [app JSON.skip_ws].
  change (JSON.is_ws JSON.dq) with false. cbv iota.
  change (Ascii.eqb JSON.dq "}") with false. cbv iota.
  change (JSON.dq :: cs' ++ "}"%char :: rest) with ((JSON.dq :: cs') ++ "}"%char :: rest).
  rewrite <- Hhead. subst texts.
  rewrite (parse_members_texts ((k, v, t) :: entries) Hentries) by (done || lia).
  rewrite define_properties_distinct; [done|done|].
  intros k' _. apply not_elem_of_nil.
Qed.

Lemma comes_back_all (v : value) : comes_back v.
Proof.
  induction v as [| |b|z|s|elements IH|props IH] using value_induction;
    unfold comes_back; intros Hv.
  - discriminate.
  - exists "null". split; [reflexivity|apply reads_back_null].
  - eexists. split; [reflexivity|apply reads_back_bool].
  - cbn [json_value] in Hv.
    assert (number_text z
            = Rendered (string_of_list_ascii
                          (if (z <? 0)%Z then "-"%char :: digits (- z) else digits z)))
      as Htext by (unfold number_text; by rewrite Hv).
    eexists. split; [exact Htext|by apply reads_back_number].
  - cbn [json_value] in Hv.
    assert (quote s = Some (dquote +:+ s +:+ dquote)) as Hq
      by (unfold quote; by rewrite Hv).
    eexists. split; [cbn [JSON_stringify]; by rewrite Hq|by apply reads_back_str].
  - rewrite json_value_Array in Hv.
    destruct (array_texts elements IH Hv) as (vts & <- & Hvts & Htexts).
    eexists. split.
    + rewrite JSON_stringify_Array. unfold serialize_array. by rewrite Htexts.
    + by apply reads_back_array.
  - rewrite json_value_Object in Hv. apply andb_true_iff in Hv as [Hdist Hall].
    destruct (object_entries props IH Hall) as (entries & <- & Hentries & Hnamed & Htexts).
    eexists. split.
    + rewrite JSON_stringify_Object. unfold serialize_object.
      by rewrite (index_entries_named _ Hnamed), Htexts.
    + by apply reads_back_object.
Qed.

Lemma reads_back_parse (v : value) (t : string) :
  reads_back v t -> JSON.parse t = Some (Normal v).
Proof.
  intros [_ Hparse]. unfold JSON.parse. cbv zeta.
  rewrite <- (app_nil_r (list_ascii_of_string t)) at 2.
  rewrite Hparse by (done || lia). reflexivity.
Qed.

(** X14: a text of [getJSON] parses back to the value. For every value with
    no [undefined] in it, whose numbers are integers exact in a double, whose
    strings and keys need no escape, and whose objects have no key twice and no
    array-index key, [getJSON] gives a text and [JSON.parse] of that text is
    the value, arrays and objects nested to any depth. *)
Theorem getJSON_parses_back (v : value) :
  json_value v = true ->
  exists text, getJSON v = Rendered text /\ JSON.parse text = Some (Normal v).
Proof.
  intros Hv. destruct (comes_back_all v Hv) as (t & Ht & Hback).
  exists t. split; [exact Ht|by apply reads_back_parse].
Qed.

Lemma getJSON_parses_back_witness :
  exists text,
    getJSON (Object [("height", Number 10); ("width", Number 20);
                     ("tags", Array [Str "a b"; Null; Bool true; Number (-7)])])
    = Rendered text
    /\ JSON.parse text
       = Some (Normal (Object [("height", Number 10); ("width", Number 20);
                               ("tags", Array [Str "a b"; Null; Bool true; Number (-7)])])).
Proof.
  apply getJSON_parses_back. vm_compute. reflexivity.
Defined.

Lemma rectangle_members (entries : list entry) (text : string) :
  Forall (fun e : entry => plain e.1.1 = true /\ reads_back e.1.2 e.2) entries ->
  keys_distinct (entries.*1).*1 = true ->
  text = "{" +:+ String.concat "," ((fun e : entry => member_text e.1.1 e.2) <$> entries)
         +:+ "}" ->
  JSON.parse text = Some (Normal (Object entries.*1)).
Proof.
  intros Hentries Hdist ->. apply reads_back_parse. by apply reads_back_object.
Qed.



(** X16: a [Rectangle] with an [undefined] width does not come back.
    [getJSON] leaves the property out of the text, so [fromJSON] gives the
    height as the first argument of the constructor: the rectangle that comes
    back has the height as its [width] and [undefined] as its [height]. *)
Theorem rectangle_undefined_width_shifts (h : value) :
  json_value h = true ->
  exists text,
    getJSON (Rectangle.mk Undefined h) = Rendered text
    /\ fromJSON Rectangle.prototype text = Some (Normal (Rectangle.mk h Undefined)).
Proof.
  intros Hh.
  destruct (comes_back_all h Hh) as (th & Hth & Hbh).
  eexists. split.
  - unfold getJSON, serialize, rectangle_serializable. cbn [Rectangle.width Rectangle.height].
    rewrite Hth. reflexivity.
  - unfold fromJSON.
    rewrite (rectangle_members [("height", h, th)]);
      [reflexivity| |reflexivity|reflexivity].
    repeat (apply List.Forall_cons; [split; [reflexivity|assumption]|]).
    apply List.Forall_nil.
Qed.

Lemma rectangle_undefined_width_shifts_witness :
  exists text,
    getJSON (Rectangle.mk Undefined (Number 20)) = Rendered text
    /\ fromJSON Rectangle.prototype text
       = Some (Normal (Rectangle.mk (Number 20) Undefined)).
Proof.
  apply rectangle_undefined_width_shifts. reflexivity.
Defined.

Example getJSON_array : getJSON (Array [Number 1; Number 2; Number 3]) = Rendered "[1,2,3]".
Proof. vm_compute. reflexivity. Qed.

Example getJSON_rectangle :
  getJSON (Rectangle.mk (Number 10) (Number 20)) = Rendered rectangle_json.
Proof. vm_compute. reflexivity. Qed.
